(** * CLooG, isl backend: constraint sets, constraints and the equality table

    A shallow embedding of [source/isl/constraints.c].  Every C function
    that a statement below talks about is transcribed under its own name.
    The primitives of the isl library that the file calls on a constraint
    handle (row access, first/next iteration) are given their reference
    semantics on a row-list representation of a basic set; the isl
    primitives that build or search sets are parameters of the sections
    that use them. *)

From Stdlib Require Import ZArith List Bool Lia.
From stdpp Require Import base option list numbers.

Local Open Scope Z_scope.

(** ** C integers *)

(** [int] and [unsigned] are 32 bits wide.  Values are carried as [Z];
    the conversions write the wrap-around out (two's complement). *)
Module C.

Definition INT_MAX : Z := 2147483647.
Definition INT_MIN : Z := -2147483648.
Definition UINT_MAX : Z := 4294967295.

(** Conversion to [unsigned]. *)
Definition to_unsigned (z : Z) : Z := z `mod` (UINT_MAX + 1).

(** Conversion to [int]. *)
Definition to_int (z : Z) : Z := (z - INT_MIN) `mod` (UINT_MAX + 1) + INT_MIN.

(** [a - b] and [a + b] on [int]. *)
Definition sub (a b : Z) : Z := to_int (a - b).
Definition add (a b : Z) : Z := to_int (a + b).

(** An [int] value. *)
Definition is_int (z : Z) : Prop := INT_MIN <= z <= INT_MAX.

End C.

(** ** Outcomes of a call *)

(** A call either returns, or stops the program: [assert] failed, a
    pointer that is NULL was dereferenced, an array was indexed outside
    its bounds.  [OutOfFuel] is the model's own: a loop given fewer steps
    than it takes. *)
Inductive fault : Set :=
| AssertionFailed
| NullDereference
| OutOfBounds
| OutOfFuel.

Inductive result (A : Type) : Type :=
| Ok (a : A)
| Stop (f : fault).
Arguments Ok {A} a.
Arguments Stop {A} f.

#[global] Instance result_ret : MRet result := fun _ a => Ok a.
#[global] Instance result_bind : MBind result := fun _ _ k m =>
  match m with
  | Ok a => k a
  | Stop f => Stop f
  end.

(** [assert(b)]. *)
Definition assert (b : bool) : result unit :=
  if b then Ok tt else Stop AssertionFailed.

(** [a[i]] read and [a[i] = v] on an array of known length. *)
Definition load {A} (a : list A) (i : Z) : result A :=
  if 0 <=? i then
    match a !! Z.to_nat i with
    | Some v => Ok v
    | None => Stop OutOfBounds
    end
  else Stop OutOfBounds.

Definition store {A} (a : list A) (i : Z) (v : A) : result (list A) :=
  if (0 <=? i) && (i <? Z.of_nat (length a)) then Ok (<[Z.to_nat i := v]> a)
  else Stop OutOfBounds.

(** Loops [for (i = first; ...; ++i)] with a known trip count, whose body
    may [break]. *)
Inductive control (S : Type) : Type :=
| Continue (s : S)
| Break (s : S).
Arguments Continue {S} s.
Arguments Break {S} s.

Fixpoint for_loop {S} (body : Z -> S -> result (control S))
    (i : Z) (trips : nat) (s : S) : result S :=
  match trips with
  | O => Ok s
  | Datatypes.S k =>
      r ← body i s;
      match r with
      | Continue s' => for_loop body (i + 1) k s'
      | Break s' => Ok s'
      end
  end.

(** ** Data model *)

(** The types below are declared in headers that are not part of this
    file ([cloog/isl/cloog.h], [isl_set.h]); they are laid out here from
    the use the file makes of them. *)

(** [isl_int] is an arbitrary-precision integer: [Z]. *)
Abbreviation isl_int := Z (only parsing).
Abbreviation cloog_int_t := isl_int (only parsing).

(** Modelled from the spec: one affine row of a constraint set,
    [sum params + sum dims + sum divs + constant], either [= 0] or
    [>= 0]. *)
Record isl_row : Set := {
  is_equality : bool;
  constant : isl_int;
  params : list isl_int;
  dims : list isl_int;
  divs : list isl_int
}.

(** Modelled from the spec: [struct isl_basic_set], a convex set of rows
    over [dim] dimensions, [nparam] parameters and [n_div] existential
    variables.  The three counts are [unsigned] (the file stores their sum
    in an [unsigned dim]); the rows are in iteration order. *)
Record isl_basic_set : Set := {
  nparam : nat;
  dim : nat;
  n_div : nat;
  rows : list isl_row
}.
Definition CloogConstraintSet := isl_basic_set.

(** Modelled from the spec: [struct isl_basic_set_constraint], a reference
    to one row of a set, or the reserved sentinel, which refers to none.
    Two handles are the same when they name the same set and the same
    line. *)
Inductive isl_basic_set_constraint : Set :=
| isl_basic_set_constraint_invalid
| isl_row_of (bset : isl_basic_set) (line : nat).
Definition CloogConstraint := isl_basic_set_constraint.

#[global] Instance isl_row_eq_dec : EqDecision isl_row.
Proof. solve_decision. Defined.
#[global] Instance isl_basic_set_eq_dec : EqDecision isl_basic_set.
Proof. solve_decision. Defined.
#[global] Instance isl_basic_set_constraint_eq_dec :
  EqDecision isl_basic_set_constraint.
Proof. solve_decision. Defined.

(** Every row has as many coefficients as the set has variables, and the
    counts fit an [int]. *)
Definition row_ok (bset : isl_basic_set) (r : isl_row) : bool :=
  (length (params r) =? nparam bset)%nat
  && (length (dims r) =? dim bset)%nat
  && (length (divs r) =? n_div bset)%nat.

Definition bset_ok (bset : isl_basic_set) : bool :=
  forallb (row_ok bset) (rows bset)
  && (Z.of_nat (nparam bset + dim bset + n_div bset) <=? C.INT_MAX).

(** A handle on a row that exists, in a well-formed set. *)
Definition constraint_ok (c : CloogConstraint) : bool :=
  match c with
  | isl_basic_set_constraint_invalid => false
  | isl_row_of bset line => bset_ok bset && (line <? length (rows bset))%nat
  end.

(** ** isl primitives on handles *)

(** Modelled from the spec: validity of a handle, the linear scan of a set
    by first/next, and the access to the fields of the row a handle refers
    to.  Reading through the sentinel dereferences NULL; reading a
    coefficient at a position the row does not have is out of bounds. *)

Definition isl_basic_set_constraint_is_valid (c : CloogConstraint) : bool :=
  match c with
  | isl_basic_set_constraint_invalid => false
  | isl_row_of _ _ => true
  end.

Definition isl_basic_set_constraint_is_equal (c1 c2 : CloogConstraint) : bool :=
  bool_decide (c1 = c2).

(** The set a handle points into; NULL for the sentinel. *)
Definition isl_basic_set_constraint_set (c : CloogConstraint)
  : option isl_basic_set :=
  match c with
  | isl_basic_set_constraint_invalid => None
  | isl_row_of bset _ => Some bset
  end.

(** [p->field] on a pointer that may be NULL. *)
Definition deref {A} (p : option A) : result A :=
  match p with
  | Some a => Ok a
  | None => Stop NullDereference
  end.

Definition isl_basic_set_first_constraint (bset : isl_basic_set)
  : CloogConstraint :=
  match rows bset with
  | [] => isl_basic_set_constraint_invalid
  | _ :: _ => isl_row_of bset 0
  end.

Definition isl_basic_set_constraint_next (c : CloogConstraint)
  : CloogConstraint :=
  match c with
  | isl_basic_set_constraint_invalid => isl_basic_set_constraint_invalid
  | isl_row_of bset line =>
      if (Datatypes.S line <? length (rows bset))%nat
      then isl_row_of bset (Datatypes.S line)
      else isl_basic_set_constraint_invalid
  end.

(** The row behind a handle. *)
Definition constraint_row (c : CloogConstraint) : result isl_row :=
  match c with
  | isl_basic_set_constraint_invalid => Stop NullDereference
  | isl_row_of bset line =>
      match rows bset !! line with
      | Some r => Ok r
      | None => Stop OutOfBounds
      end
  end.

Definition isl_basic_set_constraint_nparam (c : CloogConstraint) : result nat :=
  bset ← deref (isl_basic_set_constraint_set c); Ok (nparam bset).
Definition isl_basic_set_constraint_dim (c : CloogConstraint) : result nat :=
  bset ← deref (isl_basic_set_constraint_set c); Ok (dim bset).
Definition isl_basic_set_constraint_n_div (c : CloogConstraint) : result nat :=
  bset ← deref (isl_basic_set_constraint_set c); Ok (n_div bset).

Definition isl_basic_set_constraint_is_equality (c : CloogConstraint)
  : result bool :=
  r ← constraint_row c; Ok (is_equality r).
Definition isl_basic_set_constraint_get_constant (c : CloogConstraint)
  : result isl_int :=
  r ← constraint_row c; Ok (constant r).
Definition isl_basic_set_constraint_get_param (c : CloogConstraint) (pos : Z)
  : result isl_int :=
  r ← constraint_row c; load (params r) pos.
Definition isl_basic_set_constraint_get_dim (c : CloogConstraint) (pos : Z)
  : result isl_int :=
  r ← constraint_row c; load (dims r) pos.
Definition isl_basic_set_constraint_get_div (c : CloogConstraint) (pos : Z)
  : result isl_int :=
  r ← constraint_row c; load (divs r) pos.

Definition isl_int_is_zero (c : isl_int) : bool := c =? 0.
Definition isl_int_is_one (c : isl_int) : bool := c =? 1.
Definition isl_int_is_negone (c : isl_int) : bool := c =? -1.
Definition isl_int_is_pos (c : isl_int) : bool := 0 <? c.
Definition isl_int_is_neg (c : isl_int) : bool := c <? 0.

(** ** Constraint sets *)

(** [constraints->dim >= level]: [dim] is unsigned, so [level] is
    converted. *)
Definition cloog_constraint_set_contains_level
    (constraints : CloogConstraintSet) (level nb_parameters : Z) : bool :=
  C.to_unsigned level <=? Z.of_nat (dim constraints).

Definition cloog_constraint_set_total_dimension
    (constraints : CloogConstraintSet) : result Z :=
  _ ← assert (n_div constraints =? 0)%nat;
  Ok (C.to_int (C.to_unsigned (Z.of_nat (nparam constraints)
                               + Z.of_nat (dim constraints)))).

Definition cloog_constraint_set_n_iterators
    (constraints : CloogConstraintSet) (n_par : Z) : result Z :=
  total ← cloog_constraint_set_total_dimension constraints;
  Ok (C.sub total n_par).

(** ** Rows *)

(** Coefficient of variable [var], counted over the dimensions first and
    the parameters after them.  [var < bset->dim] compares an [int] with an
    [unsigned], and [var - bset->dim] is computed on [unsigned]. *)
Definition cloog_constraint_coefficient_get (constraint : CloogConstraint)
    (var : Z) : result cloog_int_t :=
  bset ← deref (isl_basic_set_constraint_set constraint);
  if C.to_unsigned var <? Z.of_nat (dim bset)
  then isl_basic_set_constraint_get_dim constraint var
  else isl_basic_set_constraint_get_param constraint
         (C.to_unsigned (var - Z.of_nat (dim bset))).

Definition cloog_constraint_constant_get (constraint : CloogConstraint)
  : result cloog_int_t :=
  isl_basic_set_constraint_get_constant constraint.

Definition cloog_constraint_involves (constraint : CloogConstraint) (v : Z)
  : result bool :=
  c ← cloog_constraint_coefficient_get constraint v;
  Ok (negb (isl_int_is_zero c)).

Definition cloog_constraint_is_lower_bound (constraint : CloogConstraint)
    (v : Z) : result bool :=
  c ← cloog_constraint_coefficient_get constraint v;
  Ok (isl_int_is_pos c).

Definition cloog_constraint_is_upper_bound (constraint : CloogConstraint)
    (v : Z) : result bool :=
  c ← cloog_constraint_coefficient_get constraint v;
  Ok (isl_int_is_neg c).

Definition cloog_constraint_is_equality (constraint : CloogConstraint)
  : result bool :=
  isl_basic_set_constraint_is_equality constraint.

Definition cloog_constraint_invalid : CloogConstraint :=
  isl_basic_set_constraint_invalid.

Definition cloog_constraint_is_valid (constraint : CloogConstraint) : bool :=
  isl_basic_set_constraint_is_valid constraint.

Definition cloog_constraint_total_dimension (constraint : CloogConstraint)
  : result Z :=
  bset ← deref (isl_basic_set_constraint_set constraint);
  cloog_constraint_set_total_dimension bset.

Definition cloog_constraint_first (constraints : CloogConstraintSet)
  : CloogConstraint :=
  isl_basic_set_first_constraint constraints.

Definition cloog_constraint_next (constraint : CloogConstraint)
  : CloogConstraint :=
  isl_basic_set_constraint_next constraint.

(** Copy the coefficients into [dst], variables first, then parameters,
    then the constant.  The bound of the loop is an [unsigned]. *)
Definition cloog_constraint_copy_coefficients (constraint : CloogConstraint)
    (dst : list cloog_int_t) : result (list cloog_int_t) :=
  bset ← deref (isl_basic_set_constraint_set constraint);
  total ← cloog_constraint_set_total_dimension bset;
  let dim := C.to_unsigned total in
  dst ← for_loop
          (fun i dst =>
             v ← cloog_constraint_coefficient_get constraint i;
             dst ← store dst i v;
             Ok (Continue dst))
          0 (Z.to_nat dim) dst;
  v ← cloog_constraint_constant_get constraint;
  store dst dim v.

(** Handles own nothing: releasing one touches no part of the program
    state, whatever that state is made of, and copying one returns it. *)
Definition cloog_constraint_release {World : Type}
    (constraint : CloogConstraint) (w : World) : World := w.

Definition cloog_constraint_copy (constraint : CloogConstraint)
  : CloogConstraint := constraint.

(** ** Types of equalities *)

(** Modelled from the spec: the tags of [pprint.h].  [EQTYPE_NONE] is 0,
    "no equality"; the others follow. *)
Inductive eqtype : Set :=
| EQTYPE_NONE
| EQTYPE_CONSTANT
| EQTYPE_PUREITEM
| EQTYPE_EXAFFINE.

#[global] Instance eqtype_eq_dec : EqDecision eqtype.
Proof. solve_decision. Defined.

(** The body the three scanning loops share, after the coefficient [c] has
    been fetched. *)
Definition equal_type_step (c : isl_int) (type : eqtype) : control eqtype :=
  if isl_int_is_zero c then Continue type
  else if (negb (isl_int_is_one c) && negb (isl_int_is_negone c))
          || negb (bool_decide (type = EQTYPE_NONE))
  then Break EQTYPE_EXAFFINE
  else Continue EQTYPE_PUREITEM.

Definition cloog_constraint_equal_type (constraint : CloogConstraint)
    (level : Z) : result eqtype :=
  let type := EQTYPE_NONE in
  c ← isl_basic_set_constraint_get_constant constraint;
  let type := if negb (isl_int_is_zero c) then EQTYPE_CONSTANT else type in
  n ← isl_basic_set_constraint_nparam constraint;
  type ← for_loop
           (fun i type =>
              c ← isl_basic_set_constraint_get_param constraint i;
              Ok (equal_type_step c type))
           0 n type;
  n ← isl_basic_set_constraint_dim constraint;
  type ← for_loop
           (fun i type =>
              if i =? C.sub level 1 then Ok (Continue type)
              else
                c ← isl_basic_set_constraint_get_dim constraint i;
                Ok (equal_type_step c type))
           0 n type;
  n ← isl_basic_set_constraint_n_div constraint;
  type ← for_loop
           (fun i type =>
              c ← isl_basic_set_constraint_get_div constraint i;
              Ok (equal_type_step c type))
           0 n type;
  Ok (if bool_decide (type = EQTYPE_NONE) then EQTYPE_CONSTANT else type).

(** ** The table of equalities *)

(** Modelled from the spec: [struct cloogequalities] of the isl backend,
    with the four fields the file reads and writes: the ambient dimension,
    the number of slots, and for each slot a private set (or NULL) and a
    type. *)
Record CloogEqualities : Set := {
  total_dim : Z;
  n : Z;
  constraints : list (option isl_basic_set);
  types : list eqtype
}.

Definition cloog_equal_alloc (n nb_levels nb_parameters : Z) : CloogEqualities :=
  {| total_dim := C.add (C.sub nb_levels 1) nb_parameters;
     n := n;
     constraints := replicate (Z.to_nat n) None;
     types := replicate (Z.to_nat n) EQTYPE_NONE |}.

Definition cloog_equal_total_dimension (equal : CloogEqualities) : Z :=
  total_dim equal.

Definition cloog_equal_count (equal : CloogEqualities) : Z := n equal.

Definition cloog_equal_type (equal : CloogEqualities) (level : Z)
  : result eqtype :=
  load (types equal) (C.sub level 1).

(** Modelled from the spec: [isl_basic_set_free] accepts NULL (the file's
    own [cloog_equal_free] hands it every slot, used or not); the set it is
    given is gone afterwards, which a table that no longer points to it
    cannot observe. *)
Definition isl_basic_set_free (bset : option isl_basic_set) : result unit :=
  Ok tt.

Definition cloog_equal_del (equal : CloogEqualities) (level : Z)
  : result CloogEqualities :=
  types' ← store (types equal) (C.sub level 1) EQTYPE_NONE;
  old ← load (constraints equal) (C.sub level 1);
  _ ← isl_basic_set_free old;
  constraints' ← store (constraints equal) (C.sub level 1) None;
  Ok {| total_dim := total_dim equal; n := n equal;
        constraints := constraints'; types := types' |}.

(** A table whose two arrays have the [n] slots they were allocated with. *)
Definition equal_ok (equal : CloogEqualities) : bool :=
  (0 <=? n equal) && (n equal <=? C.INT_MAX)
  && (Z.of_nat (length (types equal)) =? n equal)
  && (Z.of_nat (length (constraints equal)) =? n equal).

Section IslSets.

(** The isl operations that build sets.  Allocation is taken to succeed,
    as the file itself takes [malloc] to; [isl_basic_set_extend] may still
    hand back NULL. *)
Variable isl_basic_set_from_constraint : CloogConstraint -> isl_basic_set.
Variable isl_basic_set_extend :
  isl_basic_set -> Z -> Z -> Z -> Z -> Z -> option isl_basic_set.

Definition cloog_equal_add (equal : CloogEqualities)
    (matrix : CloogConstraintSet) (level : Z) (line : CloogConstraint)
    (nb_par : Z) : result CloogEqualities :=
  _ ← assert (cloog_constraint_is_valid line);
  type ← cloog_constraint_equal_type line level;
  types' ← store (types equal) (C.sub level 1) type;
  let bset := isl_basic_set_from_constraint line in
  let bset := isl_basic_set_extend bset (Z.of_nat (nparam bset))
                (C.to_unsigned (total_dim equal - Z.of_nat (nparam bset)))
                0 0 0 in
  constraints' ← store (constraints equal) (C.sub level 1) bset;
  Ok {| total_dim := total_dim equal; n := n equal;
        constraints := constraints'; types := types' |}.

End IslSets.

Section DefiningInequalities.

(** [isl_basic_set_has_defining_inequalities bset pos lower]: whether a
    pair of inequalities defines the variable at [pos], what [*lower] holds
    after the call, and the upper bound found. *)
Variable isl_basic_set_has_defining_inequalities :
  isl_basic_set -> Z -> CloogConstraint -> bool * CloogConstraint * CloogConstraint.

(** The loop over all constraints of the set, from [c] on; [fuel] bounds
    the number of iterations. *)
Fixpoint other_constraints_scan (fuel : nat) (level : Z)
    (lower upper c : CloogConstraint) : result CloogConstraint :=
  if negb (isl_basic_set_constraint_is_valid c) then Ok upper
  else
    match fuel with
    | O => Stop OutOfFuel
    | S fuel =>
        if isl_basic_set_constraint_is_equal c lower
        then other_constraints_scan fuel level lower upper
               (isl_basic_set_constraint_next c)
        else if isl_basic_set_constraint_is_equal c upper
        then other_constraints_scan fuel level lower upper
               (isl_basic_set_constraint_next c)
        else
          involved ← cloog_constraint_involves c (C.sub level 1);
          if involved : bool then Ok (cloog_constraint_invalid)
          else other_constraints_scan fuel level lower upper
                 (isl_basic_set_constraint_next c)
    end.

(** Returns the upper bound and what [*lower] holds on return. *)
Definition cloog_constraint_set_defining_inequalities
    (bset : CloogConstraintSet) (level : Z) (lower : CloogConstraint)
    (nb_par : Z) : result (CloogConstraint * CloogConstraint) :=
  let '(found, lower, upper) :=
    isl_basic_set_has_defining_inequalities bset (C.sub level 1) lower in
  if negb found then Ok (cloog_constraint_invalid, lower)
  else
    r ← other_constraints_scan (length (rows bset)) level lower upper
          (isl_basic_set_first_constraint bset);
    Ok (r, lower).

End DefiningInequalities.

(** ** Vocabulary of the statements *)

(** The coefficients of [l] at every position but [skip]; [i] is the
    position of the head of [l]. *)
Fixpoint except_position (skip i : Z) (l : list isl_int) : list isl_int :=
  match l with
  | [] => []
  | c :: l => if i =? skip then except_position skip (i + 1) l
              else c :: except_position skip (i + 1) l
  end.

(** The coefficients of a row other than the one of the variable at
    [level] (dimension [level - 1]): all parameters, the other dimensions,
    all existential variables. *)
Definition other_coefficients (r : isl_row) (level : Z) : list isl_int :=
  params r ++ except_position (C.sub level 1) 0 (dims r) ++ divs r.

Definition nonzero (l : list isl_int) : list isl_int :=
  filter (fun c => c ≠ 0) l.

(** The type left by one scanning loop over the coefficients [l], entered
    with [type]. *)
Fixpoint scan_type (l : list isl_int) (type : eqtype) : eqtype :=
  match l with
  | [] => type
  | c :: l =>
      match equal_type_step c type with
      | Continue type => scan_type l type
      | Break type => type
      end
  end.

(** The type the loops are entered with, from the constant [k], and the
    type returned, from the one they leave. *)
Definition initial_type (k : isl_int) : eqtype :=
  if negb (isl_int_is_zero k) then EQTYPE_CONSTANT else EQTYPE_NONE.

Definition final_type (type : eqtype) : eqtype :=
  if bool_decide (type = EQTYPE_NONE) then EQTYPE_CONSTANT else type.

(** The type of an equality as the header of [cloog_constraint_equal_type]
    words it, [k] being the constant and [others] the other factors:
    constant when all of them are null; a pure item when one and only one
    factor is not null, and is 1 or -1; an affine expression otherwise. *)
Definition classification (k : isl_int) (others : list isl_int) : eqtype :=
  match nonzero others with
  | [] => EQTYPE_CONSTANT
  | [c] => if bool_decide (k = 0 /\ (c = 1 \/ c = -1))
           then EQTYPE_PUREITEM else EQTYPE_EXAFFINE
  | _ :: _ :: _ => EQTYPE_EXAFFINE
  end.

(** The equality [sum dims + sum params + constant = 0] as the only row of
    a set without existential variables, and the handle on it. *)
Definition equality_row (ds ps : list isl_int) (k : isl_int) : isl_row :=
  {| is_equality := true; constant := k; params := ps; dims := ds; divs := [] |}.

Definition single_equality (ds ps : list isl_int) (k : isl_int)
  : CloogConstraint :=
  isl_row_of {| nparam := length ps; dim := length ds; n_div := 0;
                rows := [equality_row ds ps k] |} 0.

(** ** Reference behaviour of the isl set operations *)

(** Modelled from the spec: isl's search for a pair of inequalities
    [<a,i> - m e + <b,p> + k1 >= 0] and [<-a,i> + m e + <-b,p> + k2 >= 0]
    with [0 <= k1 + k2 < m], [e] the variable at [pos]. *)
Definition sum_to_zero (l1 l2 : list isl_int) : bool :=
  bool_decide (zip_with Z.add l1 l2 = replicate (length l1) 0)
  && (length l1 =? length l2)%nat.

Definition defining_pair (pos : Z) (up lo : isl_row) : bool :=
  match load (dims lo) pos with
  | Ok m =>
      negb (is_equality up) && negb (is_equality lo)
      && (0 <? m)
      && sum_to_zero (params up) (params lo)
      && sum_to_zero (dims up) (dims lo)
      && sum_to_zero (divs up) (divs lo)
      && (0 <=? constant up + constant lo)
      && (constant up + constant lo <? m)
  | Stop _ => false
  end.

Definition has_defining_inequalities (bset : isl_basic_set) (pos : Z)
    (lower : CloogConstraint) : bool * CloogConstraint * CloogConstraint :=
  let lines := seq 0 (length (rows bset)) in
  let candidates :=
    List.filter (fun ul : nat * nat =>
                   match rows bset !! ul.1, rows bset !! ul.2 with
                   | Some up, Some lo => defining_pair pos up lo
                   | _, _ => false
                   end)
                (list_prod lines lines) in
  match candidates with
  | (u, l) :: _ => (true, isl_row_of bset l, isl_row_of bset u)
  | [] => (false, lower, isl_basic_set_constraint_invalid)
  end.

(** Modelled from the spec: the one-row set that isolates a constraint,
    and the extension of a set to [nparam] parameters and [dim] dimensions,
    the new coefficients being zero; NULL when that would shrink the set. *)
Definition from_constraint (c : CloogConstraint) : isl_basic_set :=
  match c with
  | isl_row_of bset line =>
      {| nparam := nparam bset; dim := dim bset; n_div := n_div bset;
         rows := option_list (rows bset !! line) |}
  | isl_basic_set_constraint_invalid =>
      {| nparam := 0; dim := 0; n_div := 0; rows := [] |}
  end.

Definition pad (k : nat) (l : list isl_int) : list isl_int :=
  l ++ replicate (k - length l) 0.

Definition extend (bset : isl_basic_set) (nparam' dim' extra n_eq n_ineq : Z)
  : option isl_basic_set :=
  let np := Z.to_nat nparam' in
  let nd := Z.to_nat dim' in
  if (nparam bset <=? np)%nat && (dim bset <=? nd)%nat
  then Some {| nparam := np; dim := nd; n_div := n_div bset;
               rows := map (fun r =>
                              {| is_equality := is_equality r;
                                 constant := constant r;
                                 params := pad np (params r);
                                 dims := pad nd (dims r);
                                 divs := divs r |})
                           (rows bset) |}
  else None.

(** ** Rows met by the scan for other constraints *)

(** Where the scan stands when it reaches line [k] of [bset]. *)
Definition cursor (bset : isl_basic_set) (k : nat) : CloogConstraint :=
  if (k <? length (rows bset))%nat then isl_row_of bset k
  else isl_basic_set_constraint_invalid.

(** The row at [line] is neither bound of the pair and involves the
    variable at [level]. *)
Definition other_row_involves (bset : isl_basic_set) (level : Z)
    (lower upper : CloogConstraint) (line : nat) : bool :=
  negb (isl_basic_set_constraint_is_equal (isl_row_of bset line) lower)
  && negb (isl_basic_set_constraint_is_equal (isl_row_of bset line) upper)
  && match cloog_constraint_involves (isl_row_of bset line) (C.sub level 1) with
     | Ok involved => involved
     | Stop _ => false
     end.

(** ** Sample inputs *)

(** Two iterators [x], [y], one parameter [M], the row
    [2x - y + 3M + 5 = 0]. *)
Definition sample_set : isl_basic_set :=
  {| nparam := 1; dim := 2; n_div := 0;
     rows := [equality_row [2; -1] [3] 5] |}.

(** Iterators [e], [x]: [-2e + x >= 0] and [2e - x + 1 >= 0] define [e],
    and [e + x - 5 >= 0] involves it as well. *)
Definition inequality_row (ds ps : list isl_int) (k : isl_int) : isl_row :=
  {| is_equality := false; constant := k; params := ps; dims := ds; divs := [] |}.

Definition guarded_set : isl_basic_set :=
  {| nparam := 0; dim := 2; n_div := 0;
     rows := [inequality_row [-2; 1] [] 0; inequality_row [2; -1] [] 1;
              inequality_row [1; 1] [] (-5)] |}.

(** The same without the third row. *)
Definition defined_set : isl_basic_set :=
  {| nparam := 0; dim := 2; n_div := 0;
     rows := [inequality_row [-2; 1] [] 0; inequality_row [2; -1] [] 1] |}.

(** A table for two levels and one parameter, with the equality [i = j]
    stored at level 1. *)
Definition sample_equalities : CloogEqualities :=
  {| total_dim := 3; n := 3;
     constraints :=
       [extend (from_constraint (single_equality [1; -1] [0] 0)) 1 2 0 0 0;
        None; None];
     types := [EQTYPE_PUREITEM; EQTYPE_NONE; EQTYPE_NONE] |}.

(** ** Writing a coefficient, releasing the table *)

(** Modelled from the spec: isl's per-row coefficient write.  The set is
    changed in place; a handle on the row reads the new value afterwards,
    which is the handle returned here. *)
Definition update_row (c : CloogConstraint) (f : isl_row -> result isl_row)
  : result CloogConstraint :=
  match c with
  | isl_basic_set_constraint_invalid => Stop NullDereference
  | isl_row_of bset line =>
      match rows bset !! line with
      | Some r =>
          r' ← f r;
          Ok (isl_row_of {| nparam := nparam bset; dim := dim bset;
                            n_div := n_div bset;
                            rows := <[line := r']> (rows bset) |} line)
      | None => Stop OutOfBounds
      end
  end.

Definition isl_basic_set_constraint_set_dim (c : CloogConstraint) (pos : Z)
    (val : isl_int) : result CloogConstraint :=
  update_row c (fun r =>
    ds ← store (dims r) pos val;
    Ok {| is_equality := is_equality r; constant := constant r;
          params := params r; dims := ds; divs := divs r |}).

Definition isl_basic_set_constraint_set_param (c : CloogConstraint) (pos : Z)
    (val : isl_int) : result CloogConstraint :=
  update_row c (fun r =>
    ps ← store (params r) pos val;
    Ok {| is_equality := is_equality r; constant := constant r;
          params := ps; dims := dims r; divs := divs r |}).

Definition cloog_constraint_coefficient_set (constraint : CloogConstraint)
    (var : Z) (val : cloog_int_t) : result CloogConstraint :=
  bset ← deref (isl_basic_set_constraint_set constraint);
  if C.to_unsigned var <? Z.of_nat (dim bset)
  then isl_basic_set_constraint_set_dim constraint var val
  else isl_basic_set_constraint_set_param constraint
         (C.to_unsigned (var - Z.of_nat (dim bset))) val.

(** The row [r] with the coefficient of variable [var] replaced by [val],
    variables being numbered over the dimensions first, the parameters
    next. *)
Definition with_coefficient (r : isl_row) (var : nat) (val : isl_int)
  : isl_row :=
  {| is_equality := is_equality r; constant := constant r;
     params := if (var <? length (dims r))%nat then params r
               else <[(var - length (dims r))%nat := val]> (params r);
     dims := if (var <? length (dims r))%nat then <[var := val]> (dims r)
             else dims r;
     divs := divs r |}.

Definition with_row (bset : isl_basic_set) (line : nat) (r : isl_row)
  : isl_basic_set :=
  {| nparam := nparam bset; dim := dim bset; n_div := n_div bset;
     rows := <[line := r]> (rows bset) |}.

(** The set [cloog_equal_add] stores for a constraint: the constraint on
    its own, extended to the dimension of the table. *)
Definition stored_set
    (isl_basic_set_from_constraint : CloogConstraint -> isl_basic_set)
    (isl_basic_set_extend :
       isl_basic_set -> Z -> Z -> Z -> Z -> Z -> option isl_basic_set)
    (equal : CloogEqualities) (line : CloogConstraint)
  : option isl_basic_set :=
  let bset := isl_basic_set_from_constraint line in
  isl_basic_set_extend bset (Z.of_nat (nparam bset))
    (C.to_unsigned (total_dim equal - Z.of_nat (nparam bset))) 0 0 0.

(** Every slot is handed to [isl_basic_set_free], then the arrays and the
    table go. *)
Definition cloog_equal_free (equal : CloogEqualities) : result unit :=
  for_loop
    (fun i (_ : unit) =>
       bset ← load (constraints equal) i;
       _ ← isl_basic_set_free bset;
       Ok (Continue tt))
    0 (Z.to_nat (n equal)) tt.

(** The row [-r]: the same equality or inequality read with the opposite
    sign. *)
Definition negate_row (r : isl_row) : isl_row :=
  {| is_equality := is_equality r; constant := - constant r;
     params := Z.opp <$> params r; dims := Z.opp <$> dims r;
     divs := Z.opp <$> divs r |}.

(** * Properties *)

(** ** C integers *)

Lemma to_unsigned_small z : 0 <= z <= C.UINT_MAX -> C.to_unsigned z = z.
Proof.
  intros Hz. unfold C.to_unsigned, C.UINT_MAX in *.
  apply Z.mod_small. lia.
Qed.

Lemma to_int_small z : C.is_int z -> C.to_int z = z.
Proof.
  unfold C.is_int, C.to_int, C.INT_MIN, C.INT_MAX, C.UINT_MAX. intros Hz.
  rewrite Z.mod_small; lia.
Qed.

Lemma sub_small a b : C.is_int (a - b) -> C.sub a b = a - b.
Proof. apply to_int_small. Qed.

(** ** The result monad *)

Lemma bind_Ok {A B} (m : result A) (k : A -> result B) b :
  m ≫= k = Ok b -> exists a, m = Ok a /\ k a = Ok b.
Proof. destruct m as [a|f]; simpl; [eauto | discriminate]. Qed.

Lemma load_lookup {A} (a : list A) (i : nat) v :
  a !! i = Some v -> load a (Z.of_nat i) = Ok v.
Proof.
  intros H. unfold load.
  destruct (Z.leb_spec 0 (Z.of_nat i)); [|lia].
  by rewrite Nat2Z.id, H.
Qed.

Lemma store_insert {A} (a : list A) (i : nat) v :
  (i < length a)%nat -> store a (Z.of_nat i) v = Ok (<[i := v]> a).
Proof.
  intros H. unfold store.
  destruct (Z.leb_spec 0 (Z.of_nat i)); [|lia].
  destruct (Z.ltb_spec (Z.of_nat i) (Z.of_nat (length a))); [|lia].
  by rewrite Nat2Z.id.
Qed.

(** ** Well-formed sets *)

Lemma bset_ok_counts bset :
  bset_ok bset = true ->
  Z.of_nat (nparam bset) + Z.of_nat (dim bset) + Z.of_nat (n_div bset)
    <= C.INT_MAX.
Proof.
  unfold bset_ok. intros [_ H]%andb_prop. apply Z.leb_le in H. lia.
Qed.

Lemma bset_ok_row bset line r :
  bset_ok bset = true -> rows bset !! line = Some r ->
  length (params r) = nparam bset /\ length (dims r) = dim bset
  /\ length (divs r) = n_div bset.
Proof.
  unfold bset_ok. intros [H _]%andb_prop Hr.
  rewrite forallb_forall in H.
  specialize (H r). unfold row_ok in H.
  assert (Hin : In r (rows bset)).
  { apply list_elem_of_In, list_elem_of_lookup. eauto. }
  apply H in Hin.
  apply andb_prop in Hin as [[H1 H2]%andb_prop H3].
  by apply Nat.eqb_eq in H1, H2, H3.
Qed.

Lemma constraint_ok_row c :
  constraint_ok c = true ->
  exists bset line r, c = isl_row_of bset line /\ bset_ok bset = true
                      /\ rows bset !! line = Some r.
Proof.
  destruct c as [|bset line]; simpl; [discriminate|].
  intros [Hb Hl]%andb_prop. apply Nat.ltb_lt in Hl.
  destruct (lookup_lt_is_Some_2 (rows bset) line Hl) as [r Hr].
  eauto 6.
Qed.

(** ** Dimensions of a set *)

Lemma total_dimension_returns (bset : CloogConstraintSet) :
  bset_ok bset = true -> n_div bset = 0%nat ->
  cloog_constraint_set_total_dimension bset
  = Ok (Z.of_nat (dim bset) + Z.of_nat (nparam bset)).
Proof.
  intros Hok Hdiv. pose proof (bset_ok_counts bset Hok) as Hc.
  unfold cloog_constraint_set_total_dimension.
  rewrite Hdiv. simpl. f_equal.
  rewrite to_unsigned_small, to_int_small;
    unfold C.is_int, C.INT_MIN, C.INT_MAX, C.UINT_MAX in *; lia.
Qed.

(** C9.  On a set without existential variables
    [cloog_constraint_set_total_dimension] returns the number of
    dimensions plus the number of parameters; on a set that has some, the
    assertion fails. *)
Theorem total_dimension_spec (bset : CloogConstraintSet) :
  bset_ok bset = true ->
  (n_div bset = 0%nat ->
   cloog_constraint_set_total_dimension bset
   = Ok (Z.of_nat (dim bset) + Z.of_nat (nparam bset)))
  /\ (n_div bset ≠ 0%nat ->
      cloog_constraint_set_total_dimension bset = Stop AssertionFailed).
Proof.
  intros Hok. split; intros Hdiv.
  - by apply total_dimension_returns.
  - unfold cloog_constraint_set_total_dimension.
    apply Nat.eqb_neq in Hdiv. by rewrite Hdiv.
Qed.

Lemma total_dimension_spec_witness :
  cloog_constraint_set_total_dimension sample_set = Ok (2 + 1)
  /\ cloog_constraint_set_total_dimension
       {| nparam := 0; dim := 1; n_div := 1; rows := [] |}
     = Stop AssertionFailed.
Proof.
  split.
  - exact (proj1 (total_dimension_spec sample_set eq_refl) eq_refl).
  - apply (proj2 (total_dimension_spec
                    {| nparam := 0; dim := 1; n_div := 1; rows := [] |}
                    eq_refl)).
    discriminate.
Defined.

(** C6.  For a positive level, [cloog_constraint_set_contains_level] holds
    exactly when the set has at least [level] dimensions. *)
Theorem contains_level_iff (constraints : CloogConstraintSet)
    (level nb_parameters : Z) :
  0 < level <= C.INT_MAX ->
  cloog_constraint_set_contains_level constraints level nb_parameters = true
  <-> level <= Z.of_nat (dim constraints).
Proof.
  intros Hl. unfold cloog_constraint_set_contains_level.
  rewrite to_unsigned_small by (unfold C.INT_MAX, C.UINT_MAX in *; lia).
  apply Z.leb_le.
Qed.

Lemma contains_level_iff_witness :
  cloog_constraint_set_contains_level sample_set 2 1 = true
  <-> 2 <= Z.of_nat (dim sample_set).
Proof.
  apply (contains_level_iff sample_set 2 1).
  unfold C.INT_MAX. lia.
Defined.

(** C7.  On a set without existential variables, the number of iterators
    computed for the set's own number of parameters, plus that number, is
    the total dimension. *)
Theorem n_iterators_total_dimension (constraints : CloogConstraintSet) (p : Z) :
  bset_ok constraints = true ->
  n_div constraints = 0%nat ->
  p = Z.of_nat (nparam constraints) ->
  exists iterators total,
    cloog_constraint_set_n_iterators constraints p = Ok iterators
    /\ cloog_constraint_set_total_dimension constraints = Ok total
    /\ iterators + p = total.
Proof.
  intros Hok Hdiv ->.
  pose proof (bset_ok_counts _ Hok) as Hc.
  pose proof (total_dimension_returns _ Hok Hdiv) as Htot.
  unfold cloog_constraint_set_n_iterators. rewrite Htot. simpl.
  eexists _, _. split; [reflexivity|]. split; [reflexivity|].
  rewrite sub_small; unfold C.is_int, C.INT_MIN, C.INT_MAX in *; lia.
Qed.

Lemma n_iterators_total_dimension_witness :
  exists iterators total,
    cloog_constraint_set_n_iterators sample_set 1 = Ok iterators
    /\ cloog_constraint_set_total_dimension sample_set = Ok total
    /\ iterators + 1 = total.
Proof.
  exact (n_iterators_total_dimension sample_set 1 eq_refl eq_refl eq_refl).
Defined.

(** ** Access to a row through a handle *)

Section RowAccess.

Variables (bset : isl_basic_set) (line : nat) (r : isl_row).
Hypothesis Hrow : rows bset !! line = Some r.

Lemma constraint_row_lookup : constraint_row (isl_row_of bset line) = Ok r.
Proof using Hrow. simpl. by rewrite Hrow. Qed.

Lemma get_constant_lookup :
  isl_basic_set_constraint_get_constant (isl_row_of bset line)
  = Ok (constant r).
Proof using Hrow.
  unfold isl_basic_set_constraint_get_constant.
  by rewrite constraint_row_lookup.
Qed.

Lemma get_param_lookup (i : nat) c :
  params r !! i = Some c ->
  isl_basic_set_constraint_get_param (isl_row_of bset line) (Z.of_nat i) = Ok c.
Proof using Hrow.
  intros H. unfold isl_basic_set_constraint_get_param.
  rewrite constraint_row_lookup. simpl. by apply load_lookup.
Qed.

Lemma get_dim_lookup (i : nat) c :
  dims r !! i = Some c ->
  isl_basic_set_constraint_get_dim (isl_row_of bset line) (Z.of_nat i) = Ok c.
Proof using Hrow.
  intros H. unfold isl_basic_set_constraint_get_dim.
  rewrite constraint_row_lookup. simpl. by apply load_lookup.
Qed.

Lemma get_div_lookup (i : nat) c :
  divs r !! i = Some c ->
  isl_basic_set_constraint_get_div (isl_row_of bset line) (Z.of_nat i) = Ok c.
Proof using Hrow.
  intros H. unfold isl_basic_set_constraint_get_div.
  rewrite constraint_row_lookup. simpl. by apply load_lookup.
Qed.

End RowAccess.

(** ** The scanning loops *)

Lemma for_loop_scan_type body (i0 : Z) (l : list isl_int) type :
  (forall (k : nat) c t, l !! k = Some c ->
     body (i0 + Z.of_nat k) t = Ok (equal_type_step c t)) ->
  for_loop body i0 (length l) type = Ok (scan_type l type).
Proof.
  revert i0 type. induction l as [|c l IH]; intros i0 type Hbody; [done|].
  pose proof (Hbody 0%nat c type eq_refl) as H0.
  change (Z.of_nat 0) with 0 in H0. rewrite Z.add_0_r in H0.
  simpl. rewrite H0. simpl.
  destruct (equal_type_step c type) as [t|t]; [|done].
  apply IH. intros k c' t' Hk.
  replace (i0 + 1 + Z.of_nat k) with (i0 + Z.of_nat (S k)) by lia.
  by apply Hbody.
Qed.

Lemma for_loop_scan_type_except body (skip i0 : Z) (l : list isl_int) type :
  (forall (k : nat) c t, l !! k = Some c ->
     body (i0 + Z.of_nat k) t
     = if i0 + Z.of_nat k =? skip then Ok (Continue t)
       else Ok (equal_type_step c t)) ->
  for_loop body i0 (length l) type
  = Ok (scan_type (except_position skip i0 l) type).
Proof.
  revert i0 type. induction l as [|c l IH]; intros i0 type Hbody; [done|].
  assert (Hnext : forall (k : nat) c' t, l !! k = Some c' ->
            body (i0 + 1 + Z.of_nat k) t
            = if i0 + 1 + Z.of_nat k =? skip then Ok (Continue t)
              else Ok (equal_type_step c' t)).
  { intros k c' t' Hk.
    replace (i0 + 1 + Z.of_nat k) with (i0 + Z.of_nat (S k)) by lia.
    by apply Hbody. }
  specialize (Hbody 0%nat c type eq_refl).
  change (Z.of_nat 0) with 0 in Hbody. rewrite Z.add_0_r in Hbody.
  simpl. rewrite Hbody.
  destruct (i0 =? skip); simpl.
  - by apply IH.
  - destruct (equal_type_step c type) as [t|t]; [|done]. by apply IH.
Qed.

Lemma step_not_none c type :
  type ≠ EQTYPE_NONE -> c ≠ 0 ->
  equal_type_step c type = Break EQTYPE_EXAFFINE.
Proof.
  intros Ht Hc. unfold equal_type_step, isl_int_is_zero.
  destruct (Z.eqb_spec c 0); [done|].
  rewrite (bool_decide_eq_false_2 _ Ht). simpl.
  by rewrite orb_true_r.
Qed.

Lemma step_zero type : equal_type_step 0 type = Continue type.
Proof. done. Qed.

Lemma scan_type_exaffine l : scan_type l EQTYPE_EXAFFINE = EQTYPE_EXAFFINE.
Proof.
  induction l as [|c l IH]; [done|]. simpl.
  destruct (decide (c = 0)) as [->|Hc]; [by rewrite step_zero|].
  by rewrite step_not_none.
Qed.

Lemma step_break c type t :
  equal_type_step c type = Break t -> t = EQTYPE_EXAFFINE.
Proof.
  unfold equal_type_step.
  repeat match goal with |- context [if ?b then _ else _] => destruct b end;
    congruence.
Qed.

(** A [break] only leaves its own loop, yet the loops that follow cannot
    change the type it set: scanning the three lists in turn is scanning
    their concatenation. *)
Lemma scan_type_app l1 l2 type :
  scan_type l2 (scan_type l1 type) = scan_type (l1 ++ l2) type.
Proof.
  revert type. induction l1 as [|c l1 IH]; intros type; [done|]. simpl.
  destruct (equal_type_step c type) as [t|t] eqn:E; [apply IH|].
  apply step_break in E as ->. apply scan_type_exaffine.
Qed.

Lemma scan_type_nonzero l type :
  scan_type l type = scan_type (nonzero l) type.
Proof.
  revert type. unfold nonzero.
  induction l as [|c l IH]; intros type; [done|].
  destruct (decide (c = 0)) as [->|Hc].
  - rewrite filter_cons_False by lia. simpl. apply IH.
  - rewrite filter_cons_True by done. simpl.
    destruct (equal_type_step c type); [apply IH|done].
Qed.

Lemma nonzero_Forall l : Forall (fun c => c ≠ 0) (nonzero l).
Proof.
  apply Forall_forall. unfold nonzero.
  intros c [H _]%list_elem_of_In%list_elem_of_filter. done.
Qed.

Lemma scan_type_classification k l :
  final_type (scan_type l (initial_type k)) = classification k l.
Proof.
  rewrite scan_type_nonzero. unfold classification.
  pose proof (nonzero_Forall l) as Hnz.
  destruct (nonzero l) as [|x [|y rest]].
  - unfold initial_type, isl_int_is_zero. simpl. by destruct (k =? 0).
  - apply Forall_cons_iff in Hnz as [Hx _]. simpl.
    unfold initial_type, isl_int_is_zero.
    destruct (Z.eqb_spec k 0) as [->|Hk]; simpl.
    + unfold equal_type_step, isl_int_is_zero, isl_int_is_one, isl_int_is_negone.
      destruct (Z.eqb_spec x 0); [done|].
      destruct (Z.eqb_spec x 1), (Z.eqb_spec x (-1)); simpl;
        case_bool_decide; try done; lia.
    + rewrite step_not_none by done.
      case_bool_decide; [lia|done].
  - apply Forall_cons_iff in Hnz as [Hx [Hy _]%Forall_cons_iff]. simpl.
    destruct (equal_type_step x (initial_type k)) as [t|t] eqn:E.
    + assert (t ≠ EQTYPE_NONE) as Ht.
      { revert E. unfold equal_type_step, isl_int_is_zero.
        destruct (Z.eqb_spec x 0); [done|].
        destruct (_ || _); congruence. }
      by rewrite step_not_none.
    + by apply step_break in E as ->.
Qed.

(** The function computes the classification of the row's constant and
    other coefficients. *)
Lemma equal_type_refines bset line r level :
  bset_ok bset = true -> rows bset !! line = Some r ->
  cloog_constraint_equal_type (isl_row_of bset line) level
  = Ok (classification (constant r) (other_coefficients r level)).
Proof.
  intros Hok Hr.
  destruct (bset_ok_row _ _ _ Hok Hr) as (Hp & Hd & Hv).
  unfold cloog_constraint_equal_type.
  rewrite (get_constant_lookup _ _ _ Hr). simpl.
  rewrite <- Hp, <- Hd, <- Hv.
  rewrite (for_loop_scan_type _ 0 (params r)); simpl.
  2:{ intros k c t Hk. rewrite Z.add_0_l.
      by rewrite (get_param_lookup _ _ _ Hr k c Hk). }
  rewrite (for_loop_scan_type_except _ (C.sub level 1) 0 (dims r)); simpl.
  2:{ intros k c t Hk. rewrite Z.add_0_l. destruct (_ =? _); [done|].
      by rewrite (get_dim_lookup _ _ _ Hr k c Hk). }
  rewrite (for_loop_scan_type _ 0 (divs r)); simpl.
  2:{ intros k c t Hk. rewrite Z.add_0_l.
      by rewrite (get_div_lookup _ _ _ Hr k c Hk). }
  rewrite !scan_type_app.
  f_equal. apply scan_type_classification.
Qed.

(** ** Types of equalities *)

(** C2.  All other coefficients null: constant.  Null constant and one
    other coefficient not null, which is 1 or -1: pure item.  Two or more
    other coefficients not null, or one that is neither 1 nor -1: affine
    expression.  With iterators [i], [j] and parameter [M]: [i = -13] is
    constant, [i = j] and [j = -M] are pure items, [j = 2*M] and
    [i = j+1] are affine expressions. *)
Theorem equal_type_classification :
  (forall (c : CloogConstraint) (r : isl_row) (level : Z),
     constraint_ok c = true -> constraint_row c = Ok r ->
     (nonzero (other_coefficients r level) = [] ->
      cloog_constraint_equal_type c level = Ok EQTYPE_CONSTANT)
     /\ (constant r = 0 ->
         (exists x, nonzero (other_coefficients r level) = [x]
                    /\ (x = 1 \/ x = -1)) ->
         cloog_constraint_equal_type c level = Ok EQTYPE_PUREITEM)
     /\ ((2 <= length (nonzero (other_coefficients r level)))%nat
         \/ (exists x, x ∈ other_coefficients r level
                       /\ x ≠ 0 /\ x ≠ 1 /\ x ≠ -1) ->
         cloog_constraint_equal_type c level = Ok EQTYPE_EXAFFINE))
  /\ cloog_constraint_equal_type (single_equality [1; 0] [0] 13) 1
     = Ok EQTYPE_CONSTANT
  /\ cloog_constraint_equal_type (single_equality [1; -1] [0] 0) 1
     = Ok EQTYPE_PUREITEM
  /\ cloog_constraint_equal_type (single_equality [0; 1] [1] 0) 2
     = Ok EQTYPE_PUREITEM
  /\ cloog_constraint_equal_type (single_equality [0; 1] [-2] 0) 2
     = Ok EQTYPE_EXAFFINE
  /\ cloog_constraint_equal_type (single_equality [1; -1] [0] (-1)) 1
     = Ok EQTYPE_EXAFFINE.
Proof.
  split; [|by vm_compute].
  intros c r level Hok Hr.
  destruct (constraint_ok_row c Hok) as (bset & line & r' & -> & Hb & Hl).
  rewrite (constraint_row_lookup _ _ _ Hl) in Hr. injection Hr as ->.
  rewrite (equal_type_refines _ _ _ level Hb Hl).
  unfold classification. split; [|split].
  - by intros ->.
  - intros Hk (x & -> & Hx). by rewrite bool_decide_eq_true_2.
  - intros [Hlen | (x & Hin & Hx0 & Hx1 & Hx2)].
    + destruct (nonzero _) as [|? [|? ?]]; simpl in Hlen; [lia|lia|done].
    + assert (x ∈ nonzero (other_coefficients r level)) as Hnz.
      { unfold nonzero. apply list_elem_of_filter. done. }
      destruct (nonzero _) as [|y [|? ?]]; [|  |done].
      * by apply elem_of_nil in Hnz.
      * apply list_elem_of_singleton in Hnz as <-.
        rewrite bool_decide_eq_false_2; [done|]. lia.
Qed.

Lemma equal_type_classification_witness :
  cloog_constraint_equal_type (single_equality [1; 0] [0] 13) 1
  = Ok EQTYPE_CONSTANT
  /\ cloog_constraint_equal_type (single_equality [0; 1] [1] 0) 2
     = Ok EQTYPE_PUREITEM
  /\ cloog_constraint_equal_type (single_equality [1; -1] [-1] 0) 1
     = Ok EQTYPE_EXAFFINE
  /\ cloog_constraint_equal_type (single_equality [0; 1] [-2] 0) 2
     = Ok EQTYPE_EXAFFINE.
Proof.
  split; [|split; [|split]].
  - apply (proj1 equal_type_classification
             (single_equality [1; 0] [0] 13) (equality_row [1; 0] [0] 13) 1
             eq_refl eq_refl).
    reflexivity.
  - apply (proj1 equal_type_classification
             (single_equality [0; 1] [1] 0) (equality_row [0; 1] [1] 0) 2
             eq_refl eq_refl);
      [reflexivity | exists 1; split; [reflexivity | left; reflexivity]].
  - apply (proj1 equal_type_classification
             (single_equality [1; -1] [-1] 0) (equality_row [1; -1] [-1] 0) 1
             eq_refl eq_refl).
    left. simpl. lia.
  - apply (proj1 equal_type_classification
             (single_equality [0; 1] [-2] 0) (equality_row [0; 1] [-2] 0) 2
             eq_refl eq_refl).
    right. exists (-2). split; [|lia].
    apply list_elem_of_In. simpl. tauto.
Defined.

(** C3, as the code has it.  A constant that is not null does count as a
    type already set: an equality with such a constant and exactly one
    other coefficient not null, that one being 1 or -1, is an affine
    expression. *)
Theorem equal_type_constant_and_item (c : CloogConstraint) (r : isl_row)
    (level : Z) (x : isl_int) :
  constraint_ok c = true -> constraint_row c = Ok r ->
  constant r ≠ 0 ->
  nonzero (other_coefficients r level) = [x] -> x = 1 \/ x = -1 ->
  cloog_constraint_equal_type c level = Ok EQTYPE_EXAFFINE.
Proof.
  intros Hok Hr Hk Hnz Hx.
  destruct (constraint_ok_row c Hok) as (bset & line & r' & -> & Hb & Hl).
  rewrite (constraint_row_lookup _ _ _ Hl) in Hr. injection Hr as ->.
  rewrite (equal_type_refines _ _ _ level Hb Hl).
  unfold classification. rewrite Hnz.
  rewrite bool_decide_eq_false_2; [done|]. tauto.
Qed.

Lemma equal_type_constant_and_item_witness :
  cloog_constraint_equal_type (single_equality [1; -1] [0] (-1)) 1
  = Ok EQTYPE_EXAFFINE.
Proof.
  apply (equal_type_constant_and_item _ (equality_row [1; -1] [0] (-1)) 1 (-1));
    [reflexivity | reflexivity | discriminate | reflexivity | right; reflexivity].
Defined.

(** C3, as stated, fails on [i = j + 1] at the level of [i]: the constant
    is -1, the only other coefficient not null is -1, and the type is not
    that of a pure item. *)
Lemma equal_type_constant_and_item_counterexample :
  ~ (forall (c : CloogConstraint) (r : isl_row) (level : Z) (x : isl_int),
       constraint_ok c = true -> constraint_row c = Ok r ->
       constant r ≠ 0 ->
       nonzero (other_coefficients r level) = [x] -> x = 1 \/ x = -1 ->
       cloog_constraint_equal_type c level = Ok EQTYPE_PUREITEM).
Proof.
  intros H.
  specialize (H (single_equality [1; -1] [0] (-1))
                (equality_row [1; -1] [0] (-1)) 1 (-1)
                eq_refl eq_refl).
  discriminate H; [discriminate | reflexivity | right; reflexivity].
Qed.

(** ** The table of equalities *)

Lemma equal_ok_slot equal level :
  equal_ok equal = true -> 1 <= level <= n equal ->
  exists i : nat,
    C.sub level 1 = Z.of_nat i
    /\ (i < length (types equal))%nat
    /\ (i < length (constraints equal))%nat.
Proof.
  unfold equal_ok.
  intros [[[H0 Hmax]%andb_prop Ht]%andb_prop Hc]%andb_prop Hl.
  apply Z.leb_le in H0, Hmax. apply Z.eqb_eq in Ht, Hc.
  exists (Z.to_nat (level - 1)).
  rewrite sub_small by (unfold C.is_int, C.INT_MIN, C.INT_MAX in *; lia).
  lia.
Qed.

Lemma load_store {A} (a : list A) (i : nat) v :
  (i < length a)%nat -> load (<[i := v]> a) (Z.of_nat i) = Ok v.
Proof. intros H. by apply load_lookup, list_lookup_insert_eq. Qed.

Lemma equal_del_slot equal level i :
  C.sub level 1 = Z.of_nat i ->
  (i < length (types equal))%nat -> (i < length (constraints equal))%nat ->
  cloog_equal_del equal level
  = Ok {| total_dim := total_dim equal; n := n equal;
          constraints := <[i := None]> (constraints equal);
          types := <[i := EQTYPE_NONE]> (types equal) |}.
Proof.
  intros Hi Ht Hc. unfold cloog_equal_del. rewrite Hi.
  rewrite (store_insert _ _ _ Ht). simpl.
  destruct (lookup_lt_is_Some_2 _ _ Hc) as [old Hold].
  rewrite (load_lookup _ _ _ Hold). simpl.
  by rewrite (store_insert _ _ _ Hc).
Qed.

(** C4.  After [cloog_equal_add] at a level, [cloog_equal_type] at that
    level returns the type [cloog_constraint_equal_type] computes for the
    constraint; after [cloog_equal_del], it returns [EQTYPE_NONE]. *)
Theorem equal_add_del_type
    (isl_basic_set_from_constraint : CloogConstraint -> isl_basic_set)
    (isl_basic_set_extend :
       isl_basic_set -> Z -> Z -> Z -> Z -> Z -> option isl_basic_set)
    (equal : CloogEqualities) (matrix : CloogConstraintSet) (level : Z)
    (line : CloogConstraint) (nb_par : Z) :
  equal_ok equal = true -> 1 <= level <= n equal ->
  (constraint_ok line = true ->
   exists equal' type,
     cloog_equal_add isl_basic_set_from_constraint isl_basic_set_extend
       equal matrix level line nb_par = Ok equal'
     /\ cloog_constraint_equal_type line level = Ok type
     /\ cloog_equal_type equal' level = Ok type)
  /\ (exists equal',
        cloog_equal_del equal level = Ok equal'
        /\ cloog_equal_type equal' level = Ok EQTYPE_NONE).
Proof.
  intros Hok Hl.
  destruct (equal_ok_slot _ _ Hok Hl) as (i & Hi & Ht & Hc).
  split.
  - intros Hline.
    destruct (constraint_ok_row line Hline) as (bset & k & r & -> & Hb & Hr).
    unfold cloog_equal_add, cloog_equal_type. simpl.
    rewrite (equal_type_refines _ _ _ level Hb Hr). simpl.
    rewrite Hi, (store_insert _ _ _ Ht). simpl.
    rewrite (store_insert _ _ _ Hc). simpl.
    eexists _, _. split; [reflexivity|]. split; [reflexivity|].
    simpl. by apply load_store.
  - rewrite (equal_del_slot _ _ i Hi Ht Hc).
    eexists. split; [reflexivity|].
    unfold cloog_equal_type. simpl. rewrite Hi. by apply load_store.
Qed.

Lemma equal_add_del_type_witness :
  (exists equal' type,
     cloog_equal_add from_constraint extend
       (cloog_equal_alloc 3 3 1) sample_set 1
       (single_equality [1; -1] [0] 0) 1 = Ok equal'
     /\ cloog_constraint_equal_type (single_equality [1; -1] [0] 0) 1 = Ok type
     /\ cloog_equal_type equal' 1 = Ok type)
  /\ (exists equal',
        cloog_equal_del (cloog_equal_alloc 3 3 1) 1 = Ok equal'
        /\ cloog_equal_type equal' 1 = Ok EQTYPE_NONE).
Proof.
  destruct (equal_add_del_type from_constraint extend
              (cloog_equal_alloc 3 3 1) sample_set 1
              (single_equality [1; -1] [0] 0) 1 eq_refl) as [Hadd Hdel].
  - vm_compute. split; discriminate.
  - split; [apply Hadd; reflexivity | exact Hdel].
Defined.

(** C5.  [cloog_equal_del] on a slot that holds [EQTYPE_NONE] and no set
    returns, and leaves the table as it was; in any slot of the table, a
    second [cloog_equal_del] returns the table the first one left, whose
    slot holds [EQTYPE_NONE] and no set. *)
Theorem equal_del_idempotent (equal : CloogEqualities) (level : Z) :
  equal_ok equal = true -> 1 <= level <= n equal ->
  (load (types equal) (level - 1) = Ok EQTYPE_NONE ->
   load (constraints equal) (level - 1) = Ok None ->
   cloog_equal_del equal level = Ok equal)
  /\ (exists equal',
        cloog_equal_del equal level = Ok equal'
        /\ load (types equal') (level - 1) = Ok EQTYPE_NONE
        /\ load (constraints equal') (level - 1) = Ok None
        /\ cloog_equal_del equal' level = Ok equal').
Proof.
  intros Hok Hl.
  destruct (equal_ok_slot _ _ Hok Hl) as (i & Hi & Ht & Hc).
  assert (level - 1 = Z.of_nat i) as ->.
  { rewrite <- Hi. symmetry. apply sub_small.
    unfold equal_ok in Hok.
    apply andb_prop in Hok as [[[_ Hmax]%andb_prop _]%andb_prop _].
    apply Z.leb_le in Hmax.
    unfold C.is_int, C.INT_MIN, C.INT_MAX in *. lia. }
  split.
  - intros Htype Hset.
    rewrite (equal_del_slot _ _ i Hi Ht Hc).
    destruct (lookup_lt_is_Some_2 _ _ Ht) as [t Hlt].
    destruct (lookup_lt_is_Some_2 _ _ Hc) as [s Hls].
    rewrite (load_lookup _ _ _ Hlt) in Htype.
    rewrite (load_lookup _ _ _ Hls) in Hset.
    injection Htype as ->. injection Hset as ->.
    rewrite (list_insert_id _ _ _ Hlt), (list_insert_id _ _ _ Hls).
    by destruct equal.
  - rewrite (equal_del_slot _ _ i Hi Ht Hc).
    eexists. split; [reflexivity|]. simpl.
    split; [by apply load_store|]. split; [by apply load_store|].
    rewrite (equal_del_slot _ _ i Hi); simpl;
      [|by rewrite length_insert..].
    by rewrite !list_insert_insert_eq.
Qed.

Lemma equal_del_idempotent_witness :
  cloog_equal_del (cloog_equal_alloc 3 3 1) 2 = Ok (cloog_equal_alloc 3 3 1)
  /\ (exists equal',
        cloog_equal_del sample_equalities 1 = Ok equal'
        /\ load (types equal') (1 - 1) = Ok EQTYPE_NONE
        /\ load (constraints equal') (1 - 1) = Ok None
        /\ cloog_equal_del equal' 1 = Ok equal').
Proof.
  split.
  - apply (equal_del_idempotent (cloog_equal_alloc 3 3 1) 2 eq_refl);
      [vm_compute; split; discriminate | reflexivity | reflexivity].
  - apply (equal_del_idempotent sample_equalities 1 eq_refl).
    vm_compute. split; discriminate.
Defined.

(** ** Handles *)

(** C10.  Copying a handle returns the handle; releasing one, once or any
    number of times, leaves the state of the program as it was. *)
Theorem constraint_handles_own_nothing {World : Type}
    (constraint : CloogConstraint) (w : World) (times : nat) :
  cloog_constraint_copy constraint = constraint
  /\ cloog_constraint_release constraint w = w
  /\ Nat.iter times (cloog_constraint_release constraint) w = w.
Proof.
  split; [reflexivity|]. split; [reflexivity|].
  induction times as [|k IH]; [reflexivity|]. simpl. exact IH.
Qed.

(** ** Coefficients of a row *)

(** Variables are numbered over the dimensions first, the parameters
    next. *)
Lemma coefficient_get_lookup bset line r (var : nat) v :
  bset_ok bset = true -> rows bset !! line = Some r ->
  (dims r ++ params r) !! var = Some v ->
  cloog_constraint_coefficient_get (isl_row_of bset line) (Z.of_nat var) = Ok v.
Proof.
  intros Hok Hr Hv.
  destruct (bset_ok_row _ _ _ Hok Hr) as (Hp & Hd & _).
  pose proof (bset_ok_counts _ Hok) as Hc.
  pose proof (lookup_lt_Some _ _ _ Hv) as Hlt.
  rewrite length_app, Hp, Hd in Hlt.
  unfold cloog_constraint_coefficient_get. simpl.
  rewrite to_unsigned_small by (unfold C.INT_MAX, C.UINT_MAX in *; lia).
  destruct (Z.ltb_spec (Z.of_nat var) (Z.of_nat (dim bset))) as [Hlo|Hhi].
  - apply (get_dim_lookup _ _ _ Hr).
    rewrite lookup_app_l in Hv; [done | lia].
  - rewrite to_unsigned_small by (unfold C.INT_MAX, C.UINT_MAX in *; lia).
    replace (Z.of_nat var - Z.of_nat (dim bset))
      with (Z.of_nat (var - dim bset)) by lia.
    apply (get_param_lookup _ _ _ Hr).
    rewrite lookup_app_r in Hv; [by rewrite <- Hd | lia].
Qed.

(** A loop that stores the values [vals] from index [i0] on. *)
Lemma for_loop_store (get : Z -> result cloog_int_t) (vals : list cloog_int_t)
    (i0 : nat) (dst : list cloog_int_t) :
  (forall (k : nat) v, vals !! k = Some v ->
     get (Z.of_nat (i0 + k)) = Ok v) ->
  (i0 + length vals <= length dst)%nat ->
  for_loop (fun i dst => v ← get i; dst ← store dst i v; Ok (Continue dst))
    (Z.of_nat i0) (length vals) dst
  = Ok (take i0 dst ++ vals ++ drop (i0 + length vals) dst).
Proof.
  revert i0 dst. induction vals as [|v vals IH]; intros i0 dst Hget Hlen.
  - simpl. by rewrite Nat.add_0_r, take_drop.
  - simpl in Hlen. simpl.
    pose proof (Hget 0%nat v eq_refl) as H0. rewrite Nat.add_0_r in H0.
    rewrite H0. simpl.
    rewrite store_insert by lia. simpl.
    replace (Z.of_nat i0 + 1) with (Z.of_nat (S i0)) by lia.
    rewrite IH.
    + f_equal.
      rewrite (take_S_r _ _ v) by (apply list_lookup_insert_eq; lia).
      rewrite take_insert_ge by lia.
      rewrite drop_insert_lt by lia.
      rewrite <- app_assoc. simpl.
      by rewrite Nat.add_succ_r.
    + intros k v' Hk.
      replace (S i0 + k)%nat with (i0 + S k)%nat by lia.
      by apply Hget.
    + rewrite length_insert. lia.
Qed.

(** C8.  [cloog_constraint_copy_coefficients] fills the buffer with the
    coefficients of the dimensions, then those of the parameters, then the
    constant; what lies beyond in the buffer is left as it is.  With two
    dimensions and one parameter, the row [2x - y + 3M + 5 = 0] gives
    [2, -1, 3, 5]. *)
Theorem copy_coefficients_order :
  (forall (bset : isl_basic_set) (line : nat) (r : isl_row)
          (dst : list cloog_int_t),
     bset_ok bset = true -> n_div bset = 0%nat ->
     rows bset !! line = Some r ->
     (dim bset + nparam bset + 1 <= length dst)%nat ->
     length (dims r) = dim bset /\ length (params r) = nparam bset
     /\ cloog_constraint_copy_coefficients (isl_row_of bset line) dst
        = Ok (dims r ++ params r ++ [constant r]
              ++ drop (dim bset + nparam bset + 1) dst))
  /\ cloog_constraint_copy_coefficients (isl_row_of sample_set 0) [0; 0; 0; 0]
     = Ok [2; -1; 3; 5].
Proof.
  split; [|by vm_compute].
  intros bset line r dst Hok Hdiv Hr Hlen.
  destruct (bset_ok_row _ _ _ Hok Hr) as (Hp & Hd & _).
  pose proof (bset_ok_counts _ Hok) as Hc.
  split; [done|]. split; [done|].
  unfold cloog_constraint_copy_coefficients. simpl.
  rewrite (total_dimension_returns _ Hok Hdiv). simpl.
  rewrite to_unsigned_small by (unfold C.INT_MAX, C.UINT_MAX in *; lia).
  replace (Z.of_nat (dim bset) + Z.of_nat (nparam bset))
    with (Z.of_nat (length (dims r ++ params r)))
    by (rewrite length_app; lia).
  rewrite Nat2Z.id.
  rewrite (for_loop_store _ (dims r ++ params r) 0 dst).
  - simpl. unfold cloog_constraint_constant_get.
    rewrite (get_constant_lookup _ _ _ Hr). simpl.
    rewrite length_app, Hp, Hd in *.
    assert (is_Some (drop (dim bset + nparam bset) dst !! 0%nat)) as [x Hx].
    { apply lookup_lt_is_Some_2. rewrite length_drop. lia. }
    rewrite store_insert by (rewrite !length_app, Hp, Hd, length_drop; lia).
    f_equal.
    replace (dim bset + nparam bset)%nat
      with (length (dims r ++ params r) + 0)%nat at 1
      by (rewrite length_app; lia).
    rewrite insert_app_r, <- app_assoc. do 2 f_equal.
    rewrite lookup_drop, Nat.add_0_r in Hx.
    rewrite (drop_S _ _ _ Hx). simpl.
    by rewrite Nat.add_1_r.
  - intros k v Hk. by apply (coefficient_get_lookup _ _ r).
  - rewrite length_app. lia.
Qed.

Lemma copy_coefficients_order_witness :
  length (dims (equality_row [2; -1] [3] 5)) = dim sample_set
  /\ length (params (equality_row [2; -1] [3] 5)) = nparam sample_set
  /\ cloog_constraint_copy_coefficients (isl_row_of sample_set 0) [7; 7; 7; 7; 7]
     = Ok [2; -1; 3; 5; 7].
Proof.
  apply (proj1 copy_coefficients_order sample_set 0%nat
           (equality_row [2; -1] [3] 5) [7; 7; 7; 7; 7]
           eq_refl eq_refl eq_refl).
  simpl. lia.
Defined.

(** ** A variable defined by a pair of inequalities *)

Lemma involves_returns bset line r (v : Z) :
  bset_ok bset = true -> rows bset !! line = Some r ->
  0 <= v < Z.of_nat (dim bset + nparam bset) ->
  exists involved,
    cloog_constraint_involves (isl_row_of bset line) v = Ok involved.
Proof.
  intros Hok Hr Hv.
  destruct (bset_ok_row _ _ _ Hok Hr) as (Hp & Hd & _).
  destruct (lookup_lt_is_Some_2 (dims r ++ params r) (Z.to_nat v)) as [c Hc].
  { rewrite length_app. lia. }
  unfold cloog_constraint_involves.
  rewrite <- (Z2Nat.id v) by lia.
  rewrite (coefficient_get_lookup _ _ _ _ _ Hok Hr Hc). simpl. eauto.
Qed.

(** From line [k] on, with one step of fuel for each remaining row, the
    scan returns the sentinel when one of these rows is a third row that
    involves the variable, and the upper bound when none is. *)
Lemma other_constraints_scan_rows bset level lower upper :
  (forall line, (line < length (rows bset))%nat ->
     exists involved,
       cloog_constraint_involves (isl_row_of bset line) (C.sub level 1)
       = Ok involved) ->
  forall fuel k, (k + fuel = length (rows bset))%nat ->
    other_constraints_scan fuel level lower upper (cursor bset k)
    = Ok (if existsb (other_row_involves bset level lower upper) (seq k fuel)
          then cloog_constraint_invalid else upper).
Proof.
  intros Hinv fuel. induction fuel as [|fuel IH]; intros k Hk.
  - unfold cursor. destruct (Nat.ltb_spec k (length (rows bset))); [lia|]. done.
  - assert (Hnext : isl_basic_set_constraint_next (isl_row_of bset k)
                    = cursor bset (S k)) by done.
    specialize (IH (S k)). rewrite <- Hnext in IH.
    unfold cursor at 1.
    destruct (Nat.ltb_spec k (length (rows bset))) as [Hlt|]; [|lia].
    destruct (Hinv k Hlt) as [involved Hk_inv].
    cbn [other_constraints_scan isl_basic_set_constraint_is_valid negb
         seq existsb].
    unfold other_row_involves at 1. rewrite Hk_inv.
    destruct (isl_basic_set_constraint_is_equal (isl_row_of bset k) lower);
      [apply IH; lia|].
    destruct (isl_basic_set_constraint_is_equal (isl_row_of bset k) upper);
      [apply IH; lia|].
    simpl. destruct involved; [done|]. apply IH. lia.
Qed.

Lemma other_row_involves_iff bset level lower upper line involved :
  cloog_constraint_involves (isl_row_of bset line) (C.sub level 1)
  = Ok involved ->
  other_row_involves bset level lower upper line = true
  <-> isl_row_of bset line ≠ lower /\ isl_row_of bset line ≠ upper
      /\ involved = true.
Proof.
  intros H. unfold other_row_involves, isl_basic_set_constraint_is_equal.
  rewrite H, !andb_true_iff, !negb_true_iff, !bool_decide_eq_false. tauto.
Qed.

(** C1.  Let isl report a defining pair, or none, for the variable at
    [level].  When a row of the set other than the two of that pair
    involves the variable, the function returns the sentinel.  When it
    returns a valid constraint, isl did find a pair, that constraint is its
    upper bound, [*lower] is its lower bound, and no other row of the set
    involves the variable.  In all cases the function returns. *)
Theorem defining_inequalities_other_rows
    (isl_basic_set_has_defining_inequalities :
       isl_basic_set -> Z -> CloogConstraint
       -> bool * CloogConstraint * CloogConstraint)
    (bset : CloogConstraintSet) (level : Z) (lower : CloogConstraint)
    (nb_par : Z) (found : bool) (lower' upper : CloogConstraint) :
  bset_ok bset = true ->
  1 <= level <= Z.of_nat (dim bset) ->
  isl_basic_set_has_defining_inequalities bset (level - 1) lower
  = (found, lower', upper) ->
  ((exists line,
      (line < length (rows bset))%nat
      /\ isl_row_of bset line ≠ lower' /\ isl_row_of bset line ≠ upper
      /\ cloog_constraint_involves (isl_row_of bset line) (level - 1) = Ok true) ->
   cloog_constraint_set_defining_inequalities
     isl_basic_set_has_defining_inequalities bset level lower nb_par
   = Ok (cloog_constraint_invalid, lower'))
  /\ (forall returned lower_out,
        cloog_constraint_set_defining_inequalities
          isl_basic_set_has_defining_inequalities bset level lower nb_par
        = Ok (returned, lower_out) ->
        cloog_constraint_is_valid returned = true ->
        found = true /\ returned = upper /\ lower_out = lower'
        /\ forall line,
             (line < length (rows bset))%nat ->
             isl_row_of bset line ≠ lower' -> isl_row_of bset line ≠ upper ->
             cloog_constraint_involves (isl_row_of bset line) (level - 1)
             = Ok false)
  /\ (exists returned,
        cloog_constraint_set_defining_inequalities
          isl_basic_set_has_defining_inequalities bset level lower nb_par
        = Ok (returned, lower')).
Proof.
  intros Hok Hlevel Hfound.
  pose proof (bset_ok_counts _ Hok) as Hc.
  assert (Hsub : C.sub level 1 = level - 1).
  { apply sub_small. unfold C.is_int, C.INT_MIN, C.INT_MAX in *. lia. }
  assert (Hinv : forall line, (line < length (rows bset))%nat ->
            exists involved,
              cloog_constraint_involves (isl_row_of bset line) (C.sub level 1)
              = Ok involved).
  { intros line Hlt. destruct (lookup_lt_is_Some_2 _ _ Hlt) as [r Hr].
    apply (involves_returns _ _ r); [done..|]. lia. }
  pose proof (other_constraints_scan_rows bset level lower' upper Hinv
                (length (rows bset)) 0%nat eq_refl) as Hscan.
  assert (Hfirst : isl_basic_set_first_constraint bset = cursor bset 0).
  { unfold isl_basic_set_first_constraint, cursor. by destruct (rows bset). }
  unfold cloog_constraint_set_defining_inequalities.
  rewrite Hsub, Hfound, Hfirst, Hscan.
  destruct (existsb _ _) eqn:Hex.
  - (* some third row involves the variable *)
    split; [by destruct found|]. split; [|by destruct found; eauto].
    intros returned lower_out Hret Hvalid.
    destruct found; simpl in Hret; injection Hret as <- <-; discriminate.
  - (* no third row does *)
    assert (Hnone : forall line,
              (line < length (rows bset))%nat ->
              isl_row_of bset line ≠ lower' -> isl_row_of bset line ≠ upper ->
              cloog_constraint_involves (isl_row_of bset line) (level - 1)
              = Ok false).
    { intros line Hlt Hlo Hup.
      destruct (Hinv line Hlt) as [involved Hline].
      rewrite <- Hsub, Hline. f_equal.
      destruct involved; [|done].
      assert (existsb (other_row_involves bset level lower' upper)
                (seq 0 (length (rows bset))) = true) as Hyes; [|congruence].
      apply existsb_exists. exists line. split; [apply in_seq; lia|].
      by apply (other_row_involves_iff _ _ _ _ _ true). }
    split; [|split].
    + intros (line & Hlt & Hlo & Hup & Hline).
      rewrite (Hnone line Hlt Hlo Hup) in Hline. discriminate.
    + intros returned lower_out Hret Hvalid.
      destruct found; simpl in Hret; injection Hret as <- <-;
        [done | discriminate].
    + destruct found; simpl; eauto.
Qed.

Lemma defining_inequalities_other_rows_witness :
  cloog_constraint_set_defining_inequalities has_defining_inequalities
    guarded_set 1 cloog_constraint_invalid 0
  = Ok (cloog_constraint_invalid, isl_row_of guarded_set 1)
  /\ (forall line,
        (line < length (rows defined_set))%nat ->
        isl_row_of defined_set line ≠ isl_row_of defined_set 1 ->
        isl_row_of defined_set line ≠ isl_row_of defined_set 0 ->
        cloog_constraint_involves (isl_row_of defined_set line) (1 - 1)
        = Ok false).
Proof.
  split.
  - apply (proj1 (defining_inequalities_other_rows has_defining_inequalities
                    guarded_set 1 cloog_constraint_invalid 0
                    true (isl_row_of guarded_set 1) (isl_row_of guarded_set 0)
                    eq_refl ltac:(simpl; lia) eq_refl)).
    exists 2%nat. split; [simpl; lia|].
    split; [discriminate|]. split; [discriminate|]. reflexivity.
  - apply (proj1 (proj2 (defining_inequalities_other_rows
                           has_defining_inequalities
                           defined_set 1 cloog_constraint_invalid 0
                           true (isl_row_of defined_set 1)
                           (isl_row_of defined_set 0)
                           eq_refl ltac:(simpl; lia) eq_refl))
             (isl_row_of defined_set 0) (isl_row_of defined_set 1));
      reflexivity.
Defined.

(** ** Sample runs *)

(** Without a third row the pair is returned: the upper bound as the
    result, the lower bound in [*lower]. *)
Example defined_set_pair :
  cloog_constraint_set_defining_inequalities has_defining_inequalities
    defined_set 1 cloog_constraint_invalid 0
  = Ok (isl_row_of defined_set 0, isl_row_of defined_set 1).
Proof. reflexivity. Qed.

(** No pair of inequalities defines [x] in the same set. *)
Example defined_set_no_pair :
  cloog_constraint_set_defining_inequalities has_defining_inequalities
    defined_set 2 cloog_constraint_invalid 0
  = Ok (cloog_constraint_invalid, cloog_constraint_invalid).
Proof. reflexivity. Qed.

(** [i - j - M = 0] at the level of [i] is an affine expression, [i + 7 = 0]
    is constant. *)
Example equal_type_two_items :
  cloog_constraint_equal_type (single_equality [1; -1] [-1] 0) 1
  = Ok EQTYPE_EXAFFINE.
Proof. reflexivity. Qed.

Example equal_type_constant :
  cloog_constraint_equal_type (single_equality [1; 0] [0] 7) 1
  = Ok EQTYPE_CONSTANT.
Proof. reflexivity. Qed.

(** The sentinel is not a constraint that can be added to the table, and a
    level outside the table is not one that can be read. *)
Example equal_add_invalid :
  cloog_equal_add from_constraint extend (cloog_equal_alloc 3 3 1) sample_set
    1 cloog_constraint_invalid 1
  = Stop AssertionFailed.
Proof. reflexivity. Qed.

Example equal_type_out_of_range :
  cloog_equal_type (cloog_equal_alloc 3 3 1) 4 = Stop OutOfBounds.
Proof. reflexivity. Qed.

(** The table after [i = j] has been added at level 1 is the sample
    table. *)
Example equal_add_sample :
  cloog_equal_add from_constraint extend (cloog_equal_alloc 3 3 1) sample_set
    1 (single_equality [1; -1] [0] 0) 1
  = Ok sample_equalities.
Proof. reflexivity. Qed.

(** * Further properties of the file *)

(** ** The defining pair is returned when nothing else involves the variable *)

(** X1.  When isl reports a pair and no row of the set other than the two
    of the pair involves the variable at [level], the function returns the
    upper bound of the pair and leaves its lower bound in [*lower]. *)
Theorem defining_inequalities_pair_returned
    (isl_basic_set_has_defining_inequalities :
       isl_basic_set -> Z -> CloogConstraint
       -> bool * CloogConstraint * CloogConstraint)
    (bset : CloogConstraintSet) (level : Z) (lower : CloogConstraint)
    (nb_par : Z) (lower' upper : CloogConstraint) :
  bset_ok bset = true ->
  1 <= level <= Z.of_nat (dim bset) ->
  isl_basic_set_has_defining_inequalities bset (level - 1) lower
  = (true, lower', upper) ->
  (forall line,
     (line < length (rows bset))%nat ->
     isl_row_of bset line ≠ lower' -> isl_row_of bset line ≠ upper ->
     cloog_constraint_involves (isl_row_of bset line) (level - 1) = Ok false) ->
  cloog_constraint_set_defining_inequalities
    isl_basic_set_has_defining_inequalities bset level lower nb_par
  = Ok (upper, lower').
Proof.
  intros Hok Hlevel Hfound Hnone.
  pose proof (bset_ok_counts _ Hok) as Hc.
  assert (Hsub : C.sub level 1 = level - 1).
  { apply sub_small. unfold C.is_int, C.INT_MIN, C.INT_MAX in *. lia. }
  assert (Hinv : forall line, (line < length (rows bset))%nat ->
            exists involved,
              cloog_constraint_involves (isl_row_of bset line) (C.sub level 1)
              = Ok involved).
  { intros line Hlt. destruct (lookup_lt_is_Some_2 _ _ Hlt) as [r Hr].
    apply (involves_returns _ _ r); [done..|]. lia. }
  assert (Hfirst : isl_basic_set_first_constraint bset = cursor bset 0).
  { unfold isl_basic_set_first_constraint, cursor. by destruct (rows bset). }
  unfold cloog_constraint_set_defining_inequalities.
  rewrite Hsub, Hfound, Hfirst. simpl.
  rewrite (other_constraints_scan_rows bset level lower' upper Hinv
             (length (rows bset)) 0%nat eq_refl).
  destruct (existsb _ _) eqn:Hex; [|done].
  apply existsb_exists in Hex as (line & Hin & Hline).
  apply in_seq in Hin.
  destruct (Hinv line) as [involved Hi]; [lia|].
  destruct (proj1 (other_row_involves_iff _ _ lower' upper _ _ Hi) Hline)
    as (Hlo & Hup & Htrue).
  subst involved.
  rewrite Hsub, (Hnone line) in Hi; [discriminate | lia | done | done].
Qed.

Lemma defining_inequalities_pair_returned_witness :
  cloog_constraint_set_defining_inequalities has_defining_inequalities
    defined_set 1 cloog_constraint_invalid 0
  = Ok (isl_row_of defined_set 0, isl_row_of defined_set 1).
Proof.
  apply (defining_inequalities_pair_returned has_defining_inequalities
           defined_set 1 cloog_constraint_invalid 0
           (isl_row_of defined_set 1) (isl_row_of defined_set 0)
           eq_refl ltac:(simpl; lia) eq_refl).
  intros [|[|line]] Hlt Hlo Hup; [done | done | simpl in Hlt; lia].
Defined.

(** ** More on the types of equalities *)

Lemma final_type_not_none type : final_type type ≠ EQTYPE_NONE.
Proof. unfold final_type. by case_bool_decide. Qed.

(** X2.  Whatever the constraint and the level, a type that
    [cloog_constraint_equal_type] returns is never [EQTYPE_NONE]; and on a
    handle to a row of a well-formed set it does return one. *)
Theorem equal_type_never_none (constraint : CloogConstraint) (level : Z) :
  (forall type,
     cloog_constraint_equal_type constraint level = Ok type ->
     type ≠ EQTYPE_NONE)
  /\ (constraint_ok constraint = true ->
      exists type, cloog_constraint_equal_type constraint level = Ok type).
Proof.
  split.
  - intros type H. unfold cloog_constraint_equal_type in H.
    repeat (apply bind_Ok in H as (? & _ & H)).
    injection H as <-. apply final_type_not_none.
  - intros Hok.
    destruct (constraint_ok_row _ Hok) as (bset & line & r & -> & Hb & Hr).
    rewrite (equal_type_refines _ _ _ level Hb Hr). eauto.
Qed.

Lemma equal_type_never_none_witness :
  (forall type,
     cloog_constraint_equal_type (single_equality [1; -1] [0] 0) 1 = Ok type ->
     type ≠ EQTYPE_NONE)
  /\ exists type,
       cloog_constraint_equal_type (single_equality [1; -1] [0] 0) 1 = Ok type.
Proof.
  destruct (equal_type_never_none (single_equality [1; -1] [0] 0) 1)
    as [Hnone Hret].
  split; [exact Hnone | apply Hret; reflexivity].
Defined.

(** X3.  The conditions of the header are necessary as well: the type is
    constant only if all other coefficients are null, and a pure item only
    if the constant is null and exactly one other coefficient is not, that
    one being 1 or -1. *)
Theorem equal_type_only_if (c : CloogConstraint) (r : isl_row) (level : Z) :
  constraint_ok c = true -> constraint_row c = Ok r ->
  (cloog_constraint_equal_type c level = Ok EQTYPE_CONSTANT ->
   nonzero (other_coefficients r level) = [])
  /\ (cloog_constraint_equal_type c level = Ok EQTYPE_PUREITEM ->
      constant r = 0
      /\ exists x, nonzero (other_coefficients r level) = [x]
                   /\ (x = 1 \/ x = -1)).
Proof.
  intros Hok Hr.
  destruct (constraint_ok_row c Hok) as (bset & line & r' & -> & Hb & Hl).
  rewrite (constraint_row_lookup _ _ _ Hl) in Hr. injection Hr as ->.
  rewrite (equal_type_refines _ _ _ level Hb Hl).
  unfold classification.
  destruct (nonzero _) as [|x [|y rest]]; split; intros H; try done.
  - by case_bool_decide.
  - case_bool_decide as Hx; [|done]. destruct Hx as [Hk Hx]. eauto.
Qed.

Lemma equal_type_only_if_witness :
  nonzero (other_coefficients (equality_row [1; 0] [0] 13) 1) = []
  /\ constant (equality_row [0; 1] [1] 0) = 0
  /\ exists x, nonzero (other_coefficients (equality_row [0; 1] [1] 0) 2) = [x]
               /\ (x = 1 \/ x = -1).
Proof.
  split.
  - apply (proj1 (equal_type_only_if (single_equality [1; 0] [0] 13)
                    (equality_row [1; 0] [0] 13) 1 eq_refl eq_refl)).
    reflexivity.
  - apply (proj2 (equal_type_only_if (single_equality [0; 1] [1] 0)
                    (equality_row [0; 1] [1] 0) 2 eq_refl eq_refl)).
    reflexivity.
Defined.

Lemma except_position_fmap_opp skip i l :
  except_position skip i (Z.opp <$> l) = Z.opp <$> except_position skip i l.
Proof.
  revert i. induction l as [|c l IH]; intros i; [done|].
  simpl. destruct (i =? skip); simpl; by rewrite IH.
Qed.

Lemma nonzero_fmap_opp l : nonzero (Z.opp <$> l) = Z.opp <$> nonzero l.
Proof.
  unfold nonzero. induction l as [|c l IH]; [done|]. rewrite fmap_cons.
  destruct (decide (c = 0)) as [->|Hc].
  - rewrite !filter_cons_False by lia. apply IH.
  - rewrite !filter_cons_True by lia. rewrite fmap_cons. by rewrite IH.
Qed.

Lemma classification_opp k l :
  classification (- k) (Z.opp <$> l) = classification k l.
Proof.
  unfold classification. rewrite nonzero_fmap_opp.
  destruct (nonzero l) as [|x [|y rest]]; [done| |done]. simpl.
  repeat case_bool_decide; try done; lia.
Qed.

(** X4.  The type does not depend on the sign the equality is written
    with: a row and its opposite have the same type. *)
Theorem equal_type_opposite_row (bset1 bset2 : isl_basic_set)
    (line1 line2 : nat) (r : isl_row) (level : Z) :
  bset_ok bset1 = true -> bset_ok bset2 = true ->
  rows bset1 !! line1 = Some r ->
  rows bset2 !! line2 = Some (negate_row r) ->
  cloog_constraint_equal_type (isl_row_of bset2 line2) level
  = cloog_constraint_equal_type (isl_row_of bset1 line1) level.
Proof.
  intros H1 H2 Hr1 Hr2.
  rewrite (equal_type_refines _ _ _ level H1 Hr1).
  rewrite (equal_type_refines _ _ _ level H2 Hr2).
  f_equal. unfold other_coefficients, negate_row. simpl.
  rewrite except_position_fmap_opp, <- !fmap_app.
  apply classification_opp.
Qed.

Lemma equal_type_opposite_row_witness :
  cloog_constraint_equal_type (single_equality [0; -1] [-1] 0) 2
  = cloog_constraint_equal_type (single_equality [0; 1] [1] 0) 2.
Proof.
  exact (equal_type_opposite_row
           {| nparam := 1; dim := 2; n_div := 0;
              rows := [equality_row [0; 1] [1] 0] |}
           {| nparam := 1; dim := 2; n_div := 0;
              rows := [equality_row [0; -1] [-1] 0] |}
           0 0 (equality_row [0; 1] [1] 0) 2
           eq_refl eq_refl eq_refl eq_refl).
Defined.

(** ** Reading and writing coefficients *)

(** X5.  [cloog_constraint_coefficient_get] numbers the variables over the
    dimensions first and the parameters next: below [dim] it reads the
    dimension at that position, from [dim] on the parameter at the position
    less [dim]. *)
Theorem coefficient_get_order (bset : isl_basic_set) (line : nat)
    (r : isl_row) (var : nat) :
  bset_ok bset = true -> rows bset !! line = Some r ->
  (var < dim bset + nparam bset)%nat ->
  exists v,
    cloog_constraint_coefficient_get (isl_row_of bset line) (Z.of_nat var)
    = Ok v
    /\ ((var < dim bset)%nat -> dims r !! var = Some v)
    /\ ((dim bset <= var)%nat -> params r !! (var - dim bset)%nat = Some v).
Proof.
  intros Hok Hr Hvar.
  destruct (bset_ok_row _ _ _ Hok Hr) as (Hp & Hd & _).
  destruct (lookup_lt_is_Some_2 (dims r ++ params r) var) as [v Hv].
  { rewrite length_app. lia. }
  exists v. split; [by apply (coefficient_get_lookup _ _ r)|].
  split; intros H.
  - rewrite lookup_app_l in Hv; [done | lia].
  - rewrite lookup_app_r in Hv; [by rewrite <- Hd | lia].
Qed.

Lemma coefficient_get_order_witness :
  cloog_constraint_coefficient_get (isl_row_of sample_set 0) 2 = Ok 3
  /\ cloog_constraint_coefficient_get (isl_row_of sample_set 0) 1 = Ok (-1).
Proof.
  split.
  - destruct (coefficient_get_order sample_set 0 (equality_row [2; -1] [3] 5) 2
                eq_refl eq_refl ltac:(simpl; lia)) as (v & Hget & _ & Hparam).
    specialize (Hparam ltac:(simpl; lia)). injection Hparam as <-.
    exact Hget.
  - destruct (coefficient_get_order sample_set 0 (equality_row [2; -1] [3] 5) 1
                eq_refl eq_refl ltac:(simpl; lia)) as (v & Hget & Hdim & _).
    specialize (Hdim ltac:(simpl; lia)). injection Hdim as <-.
    exact Hget.
Defined.

(** X6.  A constraint that involves a variable is a lower bound or an
    upper bound for it, and never both; one that does not involve it is
    neither. *)
Theorem bound_direction (bset : isl_basic_set) (line : nat) (r : isl_row)
    (v : Z) :
  bset_ok bset = true -> rows bset !! line = Some r ->
  0 <= v < Z.of_nat (dim bset + nparam bset) ->
  exists involved lower upper,
    cloog_constraint_involves (isl_row_of bset line) v = Ok involved
    /\ cloog_constraint_is_lower_bound (isl_row_of bset line) v = Ok lower
    /\ cloog_constraint_is_upper_bound (isl_row_of bset line) v = Ok upper
    /\ involved = lower || upper
    /\ lower && upper = false.
Proof.
  intros Hok Hr Hv.
  destruct (bset_ok_row _ _ _ Hok Hr) as (Hp & Hd & _).
  destruct (lookup_lt_is_Some_2 (dims r ++ params r) (Z.to_nat v)) as [c Hc].
  { rewrite length_app. lia. }
  unfold cloog_constraint_involves, cloog_constraint_is_lower_bound,
    cloog_constraint_is_upper_bound.
  rewrite <- (Z2Nat.id v) by lia.
  rewrite (coefficient_get_lookup _ _ _ _ _ Hok Hr Hc). simpl.
  eexists _, _, _. do 3 (split; [reflexivity|]).
  unfold isl_int_is_zero, isl_int_is_pos, isl_int_is_neg.
  destruct (Z.eqb_spec c 0), (Z.ltb_spec 0 c), (Z.ltb_spec c 0);
    simpl; split; (done || lia).
Qed.

Lemma bound_direction_witness :
  exists involved lower upper,
    cloog_constraint_involves (isl_row_of guarded_set 0) 0 = Ok involved
    /\ cloog_constraint_is_lower_bound (isl_row_of guarded_set 0) 0 = Ok lower
    /\ cloog_constraint_is_upper_bound (isl_row_of guarded_set 0) 0 = Ok upper
    /\ involved = lower || upper
    /\ lower && upper = false.
Proof.
  apply (bound_direction guarded_set 0 (inequality_row [-2; 1] [] 0) 0
           eq_refl eq_refl).
  simpl. lia.
Defined.

Lemma forallb_insert {A} (f : A -> bool) (l : list A) (i : nat) (x : A) :
  forallb f l = true -> f x = true -> forallb f (<[i := x]> l) = true.
Proof.
  revert i. induction l as [|y l IH]; intros i Hl Hx; [done|].
  simpl in Hl. apply andb_prop in Hl as [Hy Hl].
  destruct i as [|i]; simpl; [by rewrite Hx, Hl|].
  by rewrite Hy, IH.
Qed.

Lemma with_row_ok bset line r :
  bset_ok bset = true -> row_ok bset r = true ->
  bset_ok (with_row bset line r) = true.
Proof.
  unfold bset_ok. intros [Hrows Hmax]%andb_prop Hr. simpl.
  rewrite Hmax, andb_true_r. by apply forallb_insert.
Qed.

Lemma with_coefficient_ok bset r var val :
  row_ok bset r = true -> row_ok bset (with_coefficient r var val) = true.
Proof.
  unfold row_ok, with_coefficient. simpl.
  destruct (var <? length (dims r))%nat; by rewrite ?length_insert.
Qed.

Lemma with_coefficient_insert r var val :
  dims (with_coefficient r var val) ++ params (with_coefficient r var val)
  = <[var := val]> (dims r ++ params r).
Proof.
  unfold with_coefficient. simpl.
  destruct (Nat.ltb_spec var (length (dims r))).
  - by rewrite insert_app_l.
  - by rewrite insert_app_r_alt.
Qed.

(** What the write returns: the handle on the same line of the set in
    which the row has the new coefficient. *)
Lemma coefficient_set_returns bset line r (var : nat) val :
  bset_ok bset = true -> rows bset !! line = Some r ->
  (var < dim bset + nparam bset)%nat ->
  cloog_constraint_coefficient_set (isl_row_of bset line) (Z.of_nat var) val
  = Ok (isl_row_of (with_row bset line (with_coefficient r var val)) line).
Proof.
  intros Hok Hr Hvar.
  destruct (bset_ok_row _ _ _ Hok Hr) as (Hp & Hd & _).
  pose proof (bset_ok_counts _ Hok) as Hc.
  unfold cloog_constraint_coefficient_set. simpl.
  rewrite to_unsigned_small by (unfold C.INT_MAX, C.UINT_MAX in *; lia).
  unfold with_coefficient. rewrite Hd.
  destruct (Z.ltb_spec (Z.of_nat var) (Z.of_nat (dim bset))) as [Hlo|Hhi].
  - destruct (Nat.ltb_spec var (dim bset)); [|lia].
    unfold isl_basic_set_constraint_set_dim, update_row. rewrite Hr.
    rewrite store_insert by lia. done.
  - destruct (Nat.ltb_spec var (dim bset)); [lia|].
    rewrite to_unsigned_small by (unfold C.INT_MAX, C.UINT_MAX in *; lia).
    replace (Z.of_nat var - Z.of_nat (dim bset))
      with (Z.of_nat (var - dim bset)) by lia.
    unfold isl_basic_set_constraint_set_param, update_row. rewrite Hr.
    rewrite store_insert by lia. done.
Qed.

(** X7.  After [cloog_constraint_coefficient_set] of a variable,
    [cloog_constraint_coefficient_get] of that variable returns the value
    written; the other coefficients of the row and its constant read as
    before, and the set is still well formed. *)
Theorem coefficient_set_get (bset : isl_basic_set) (line : nat) (r : isl_row)
    (var : nat) (val : cloog_int_t) :
  bset_ok bset = true -> rows bset !! line = Some r ->
  (var < dim bset + nparam bset)%nat ->
  exists constraint',
    cloog_constraint_coefficient_set (isl_row_of bset line) (Z.of_nat var) val
    = Ok constraint'
    /\ constraint_ok constraint' = true
    /\ cloog_constraint_coefficient_get constraint' (Z.of_nat var) = Ok val
    /\ (forall var' : nat,
          (var' < dim bset + nparam bset)%nat -> var' ≠ var ->
          cloog_constraint_coefficient_get constraint' (Z.of_nat var')
          = cloog_constraint_coefficient_get (isl_row_of bset line)
              (Z.of_nat var'))
    /\ cloog_constraint_constant_get constraint'
       = cloog_constraint_constant_get (isl_row_of bset line).
Proof.
  intros Hok Hr Hvar.
  destruct (bset_ok_row _ _ _ Hok Hr) as (Hp & Hd & Hv).
  pose proof (lookup_lt_Some _ _ _ Hr) as Hline.
  set (r' := with_coefficient r var val).
  assert (Hok' : bset_ok (with_row bset line r') = true).
  { apply with_row_ok; [done|]. apply with_coefficient_ok.
    unfold row_ok. by rewrite Hp, Hd, Hv, !Nat.eqb_refl. }
  assert (Hr' : rows (with_row bset line r') !! line = Some r').
  { simpl. by apply list_lookup_insert_eq. }
  rewrite (coefficient_set_returns _ _ _ _ _ Hok Hr Hvar).
  eexists. split; [reflexivity|]. fold r'.
  split; [|split; [|split]].
  - simpl. fold (with_row bset line r'). rewrite Hok'. simpl.
    rewrite length_insert. by apply Nat.ltb_lt.
  - apply (coefficient_get_lookup _ _ r' _ _ Hok' Hr').
    unfold r'. rewrite with_coefficient_insert.
    apply list_lookup_insert_eq. rewrite length_app. lia.
  - intros var' Hvar' Hne.
    destruct (lookup_lt_is_Some_2 (dims r ++ params r) var') as [v Hv'].
    { rewrite length_app. lia. }
    rewrite (coefficient_get_lookup _ _ r _ _ Hok Hr Hv').
    apply (coefficient_get_lookup _ _ r' _ _ Hok' Hr').
    unfold r'. rewrite with_coefficient_insert.
    by rewrite list_lookup_insert_ne.
  - unfold cloog_constraint_constant_get.
    by rewrite (get_constant_lookup _ _ _ Hr'), (get_constant_lookup _ _ _ Hr).
Qed.

Lemma coefficient_set_get_witness :
  exists constraint',
    cloog_constraint_coefficient_set (isl_row_of sample_set 0) (Z.of_nat 2) 9
    = Ok constraint'
    /\ constraint_ok constraint' = true
    /\ cloog_constraint_coefficient_get constraint' (Z.of_nat 2) = Ok 9
    /\ (forall var' : nat,
          (var' < dim sample_set + nparam sample_set)%nat -> var' ≠ 2%nat ->
          cloog_constraint_coefficient_get constraint' (Z.of_nat var')
          = cloog_constraint_coefficient_get (isl_row_of sample_set 0)
              (Z.of_nat var'))
    /\ cloog_constraint_constant_get constraint'
       = cloog_constraint_constant_get (isl_row_of sample_set 0).
Proof.
  apply (coefficient_set_get sample_set 0 (equality_row [2; -1] [3] 5) 2 9
           eq_refl eq_refl).
  simpl. lia.
Defined.

Lemma except_position_insert (l : list Z) (i0 : Z) (k : nat) (v : Z) :
  except_position (i0 + Z.of_nat k) i0 (<[k := v]> l)
  = except_position (i0 + Z.of_nat k) i0 l.
Proof.
  revert i0 k. induction l as [|c l IH]; intros i0 k; [done|].
  destruct k as [|k]; simpl.
  - change (Z.of_nat 0) with 0. rewrite Z.add_0_r, Z.eqb_refl. done.
  - destruct (Z.eqb_spec i0 (i0 + Z.of_nat (S k))) as [|_]; [lia|].
    f_equal.
    replace (i0 + Z.of_nat (S k)) with (i0 + 1 + Z.of_nat k) by lia.
    apply IH.
Qed.

(** X8.  The type of an equality at a level does not depend on the
    coefficient of that level's own variable: writing any value there
    leaves the type as it was. *)
Theorem equal_type_ignores_own_coefficient (bset : isl_basic_set) (line : nat)
    (r : isl_row) (level : Z) (val : cloog_int_t) :
  bset_ok bset = true -> rows bset !! line = Some r ->
  1 <= level <= Z.of_nat (dim bset) ->
  exists constraint',
    cloog_constraint_coefficient_set (isl_row_of bset line) (level - 1) val
    = Ok constraint'
    /\ cloog_constraint_equal_type constraint' level
       = cloog_constraint_equal_type (isl_row_of bset line) level.
Proof.
  intros Hok Hr Hlevel.
  destruct (bset_ok_row _ _ _ Hok Hr) as (Hp & Hd & Hv).
  pose proof (bset_ok_counts _ Hok) as Hc.
  pose proof (lookup_lt_Some _ _ _ Hr) as Hline.
  set (var := Z.to_nat (level - 1)).
  assert (Hvar : level - 1 = Z.of_nat var) by (unfold var; lia).
  set (r' := with_coefficient r var val).
  assert (Hok' : bset_ok (with_row bset line r') = true).
  { apply with_row_ok; [done|]. apply with_coefficient_ok.
    unfold row_ok. by rewrite Hp, Hd, Hv, !Nat.eqb_refl. }
  assert (Hr' : rows (with_row bset line r') !! line = Some r').
  { simpl. by apply list_lookup_insert_eq. }
  rewrite Hvar, (coefficient_set_returns _ _ r) by (done || lia).
  eexists. split; [reflexivity|]. fold r'.
  rewrite (equal_type_refines _ _ _ level Hok' Hr').
  rewrite (equal_type_refines _ _ _ level Hok Hr).
  f_equal. unfold other_coefficients, r', with_coefficient. simpl.
  destruct (Nat.ltb_spec var (length (dims r))); [|lia].
  rewrite sub_small by (unfold C.is_int, C.INT_MIN, C.INT_MAX in *; lia).
  rewrite Hvar. do 2 f_equal.
  rewrite <- (Z.add_0_l (Z.of_nat var)).
  by rewrite except_position_insert.
Qed.

Lemma equal_type_ignores_own_coefficient_witness :
  exists constraint',
    cloog_constraint_coefficient_set (isl_row_of sample_set 0) (1 - 1) 40
    = Ok constraint'
    /\ cloog_constraint_equal_type constraint' 1
       = cloog_constraint_equal_type (isl_row_of sample_set 0) 1.
Proof.
  apply (equal_type_ignores_own_coefficient sample_set 0
           (equality_row [2; -1] [3] 5) 1 40 eq_refl eq_refl).
  simpl. lia.
Defined.

(** X9.  On a row of a set that has existential variables
    [cloog_constraint_copy_coefficients] fails the assertion of
    [cloog_constraint_set_total_dimension], whatever the buffer; nothing
    is written. *)
Theorem copy_coefficients_existential (bset : isl_basic_set) (line : nat)
    (dst : list cloog_int_t) :
  n_div bset ≠ 0%nat ->
  cloog_constraint_copy_coefficients (isl_row_of bset line) dst
  = Stop AssertionFailed.
Proof.
  intros Hdiv. unfold cloog_constraint_copy_coefficients. simpl.
  unfold cloog_constraint_set_total_dimension.
  apply Nat.eqb_neq in Hdiv. by rewrite Hdiv.
Qed.

Lemma copy_coefficients_existential_witness :
  cloog_constraint_copy_coefficients
    (isl_row_of {| nparam := 0; dim := 1; n_div := 1;
                   rows := [{| is_equality := true; constant := 0;
                               params := []; dims := [2]; divs := [-1] |}] |} 0)
    [0; 0; 0]
  = Stop AssertionFailed.
Proof.
  apply copy_coefficients_existential. discriminate.
Defined.

(** ** Iterators *)

(** X10.  For any parameter count between 0 and [INT_MAX],
    [cloog_constraint_set_n_iterators] returns the dimensions plus the
    parameters of the set less that count, a negative number when the count
    exceeds them; on a set with existential variables the assertion
    fails. *)
Theorem n_iterators_value (constraints : CloogConstraintSet) (n_par : Z) :
  bset_ok constraints = true ->
  0 <= n_par <= C.INT_MAX ->
  (n_div constraints = 0%nat ->
   cloog_constraint_set_n_iterators constraints n_par
   = Ok (Z.of_nat (dim constraints) + Z.of_nat (nparam constraints) - n_par))
  /\ (n_div constraints ≠ 0%nat ->
      cloog_constraint_set_n_iterators constraints n_par
      = Stop AssertionFailed).
Proof.
  intros Hok Hpar. pose proof (bset_ok_counts _ Hok) as Hc.
  unfold cloog_constraint_set_n_iterators. split; intros Hdiv.
  - rewrite (total_dimension_returns _ Hok Hdiv). simpl. f_equal.
    apply sub_small. unfold C.is_int, C.INT_MIN, C.INT_MAX in *. lia.
  - unfold cloog_constraint_set_total_dimension.
    apply Nat.eqb_neq in Hdiv. by rewrite Hdiv.
Qed.

Lemma n_iterators_value_witness :
  cloog_constraint_set_n_iterators sample_set 5 = Ok (-2)
  /\ cloog_constraint_set_n_iterators
       {| nparam := 0; dim := 1; n_div := 1; rows := [] |} 0
     = Stop AssertionFailed.
Proof.
  split.
  - apply (proj1 (n_iterators_value sample_set 5 eq_refl
                    ltac:(unfold C.INT_MAX; lia))).
    reflexivity.
  - apply (proj2 (n_iterators_value
                    {| nparam := 0; dim := 1; n_div := 1; rows := [] |} 0
                    eq_refl ltac:(unfold C.INT_MAX; lia))).
    discriminate.
Defined.

(** ** More on the table of equalities *)

Lemma store_Ok {A} (a a' : list A) (i : Z) (v : A) :
  store a i v = Ok a' ->
  exists k : nat, i = Z.of_nat k /\ (k < length a)%nat /\ a' = <[k := v]> a.
Proof.
  unfold store. intros Hs.
  destruct (Z.leb_spec 0 i), (Z.ltb_spec i (Z.of_nat (length a)));
    simpl in Hs; try discriminate.
  injection Hs as <-. exists (Z.to_nat i). split; [lia|]. split; [lia|done].
Qed.

Lemma load_insert_ne {A} (a : list A) (k : nat) (i : Z) (v : A) :
  i ≠ Z.of_nat k -> load (<[k := v]> a) i = load a i.
Proof.
  intros Hne. unfold load. destruct (Z.leb_spec 0 i); [|done].
  rewrite list_lookup_insert_ne; [done | lia].
Qed.

Lemma equal_add_Ok from_c ext equal matrix level line nb_par equal' :
  cloog_equal_add from_c ext equal matrix level line nb_par = Ok equal' ->
  exists (k : nat) type,
    cloog_constraint_is_valid line = true
    /\ cloog_constraint_equal_type line level = Ok type
    /\ C.sub level 1 = Z.of_nat k
    /\ (k < length (types equal))%nat
    /\ (k < length (constraints equal))%nat
    /\ equal' = {| total_dim := total_dim equal; n := n equal;
                   constraints := <[k := stored_set from_c ext equal line]>
                                    (constraints equal);
                   types := <[k := type]> (types equal) |}.
Proof.
  unfold cloog_equal_add. intros H.
  apply bind_Ok in H as ([] & Hvalid & H).
  apply bind_Ok in H as (type & Htype & H).
  apply bind_Ok in H as (types' & Htypes & H).
  apply bind_Ok in H as (constraints' & Hsets & H).
  injection H as <-.
  apply store_Ok in Htypes as (k & Hk & Hlt & ->).
  apply store_Ok in Hsets as (k' & Hk' & Hlt' & ->).
  assert (k' = k) as -> by lia.
  exists k, type. unfold assert in Hvalid.
  destruct (cloog_constraint_is_valid line); [|discriminate].
  done.
Qed.

Lemma equal_del_Ok equal level equal' :
  cloog_equal_del equal level = Ok equal' ->
  exists k : nat,
    C.sub level 1 = Z.of_nat k
    /\ (k < length (types equal))%nat
    /\ (k < length (constraints equal))%nat
    /\ equal' = {| total_dim := total_dim equal; n := n equal;
                   constraints := <[k := None]> (constraints equal);
                   types := <[k := EQTYPE_NONE]> (types equal) |}.
Proof.
  unfold cloog_equal_del. intros H.
  apply bind_Ok in H as (types' & Htypes & H).
  apply bind_Ok in H as (old & _ & H).
  apply bind_Ok in H as ([] & _ & H).
  apply bind_Ok in H as (constraints' & Hsets & H).
  injection H as <-.
  apply store_Ok in Htypes as (k & Hk & Hlt & ->).
  apply store_Ok in Hsets as (k' & Hk' & Hlt' & ->).
  assert (k' = k) as -> by lia.
  by exists k.
Qed.

Lemma equal_add_slot from_c ext equal matrix level line nb_par (k : nat) type :
  cloog_constraint_is_valid line = true ->
  cloog_constraint_equal_type line level = Ok type ->
  C.sub level 1 = Z.of_nat k ->
  (k < length (types equal))%nat -> (k < length (constraints equal))%nat ->
  cloog_equal_add from_c ext equal matrix level line nb_par
  = Ok {| total_dim := total_dim equal; n := n equal;
          constraints := <[k := stored_set from_c ext equal line]>
                           (constraints equal);
          types := <[k := type]> (types equal) |}.
Proof.
  intros Hvalid Htype Hk Ht Hc. unfold cloog_equal_add.
  rewrite Hvalid, Htype, Hk. simpl.
  rewrite (store_insert _ _ _ Ht). simpl.
  by rewrite (store_insert _ _ _ Hc).
Qed.

Lemma equal_ok_insert equal (k k' : nat) s t :
  equal_ok equal = true ->
  equal_ok {| total_dim := total_dim equal; n := n equal;
              constraints := <[k := s]> (constraints equal);
              types := <[k' := t]> (types equal) |} = true.
Proof. unfold equal_ok. simpl. by rewrite !length_insert. Qed.

Lemma level_slot level : 1 <= level <= C.INT_MAX -> C.sub level 1 = level - 1.
Proof.
  intros H. apply sub_small. unfold C.is_int, C.INT_MIN, C.INT_MAX in *. lia.
Qed.

(** X11.  A table allocated with [n] slots, [n] an [int] that is not
    negative, is well formed, counts [n] slots, and every level from 1 to
    [n] reads [EQTYPE_NONE] and holds no set. *)
Theorem equal_alloc_empty (slots nb_levels nb_parameters : Z) :
  0 <= slots <= C.INT_MAX ->
  equal_ok (cloog_equal_alloc slots nb_levels nb_parameters) = true
  /\ cloog_equal_count (cloog_equal_alloc slots nb_levels nb_parameters)
     = slots
  /\ forall level,
       1 <= level <= slots ->
       cloog_equal_type (cloog_equal_alloc slots nb_levels nb_parameters) level
       = Ok EQTYPE_NONE
       /\ load (constraints (cloog_equal_alloc slots nb_levels nb_parameters))
            (level - 1)
          = Ok None.
Proof.
  intros Hn. split; [|split; [done|]].
  - unfold equal_ok, cloog_equal_alloc. simpl.
    rewrite !length_replicate, Z2Nat.id, Z.eqb_refl by lia.
    destruct (Z.leb_spec 0 slots), (Z.leb_spec slots C.INT_MAX); (done || lia).
  - intros level Hl. unfold cloog_equal_type, cloog_equal_alloc. simpl.
    rewrite level_slot by lia.
    rewrite <- (Z2Nat.id (level - 1)) by lia.
    split; apply load_lookup, lookup_replicate_2; lia.
Qed.

Lemma equal_alloc_empty_witness :
  equal_ok (cloog_equal_alloc 3 3 1) = true
  /\ cloog_equal_count (cloog_equal_alloc 3 3 1) = 3
  /\ forall level,
       1 <= level <= 3 ->
       cloog_equal_type (cloog_equal_alloc 3 3 1) level = Ok EQTYPE_NONE
       /\ load (constraints (cloog_equal_alloc 3 3 1)) (level - 1) = Ok None.
Proof.
  apply (equal_alloc_empty 3 3 1). unfold C.INT_MAX. lia.
Defined.

(** X12.  When [cloog_equal_add] returns, the constraint was a valid one,
    the table has the slots and the dimension it had, is well formed if it
    was, and the level reads a type that is not [EQTYPE_NONE]. *)
Theorem equal_add_keeps_table
    (isl_basic_set_from_constraint : CloogConstraint -> isl_basic_set)
    (isl_basic_set_extend :
       isl_basic_set -> Z -> Z -> Z -> Z -> Z -> option isl_basic_set)
    (equal : CloogEqualities) (matrix : CloogConstraintSet) (level : Z)
    (line : CloogConstraint) (nb_par : Z) (equal' : CloogEqualities) :
  cloog_equal_add isl_basic_set_from_constraint isl_basic_set_extend
    equal matrix level line nb_par = Ok equal' ->
  cloog_constraint_is_valid line = true
  /\ cloog_equal_count equal' = cloog_equal_count equal
  /\ cloog_equal_total_dimension equal' = cloog_equal_total_dimension equal
  /\ (equal_ok equal = true -> equal_ok equal' = true)
  /\ exists type, cloog_equal_type equal' level = Ok type
                  /\ type ≠ EQTYPE_NONE.
Proof.
  intros H.
  apply equal_add_Ok in H as (k & type & Hvalid & Htype & Hk & Ht & Hc & ->).
  split; [done|]. split; [done|]. split; [done|].
  split; [apply equal_ok_insert|].
  exists type. split.
  - unfold cloog_equal_type. simpl. rewrite Hk. by apply load_store.
  - unfold cloog_constraint_equal_type in Htype.
    repeat (apply bind_Ok in Htype as (? & _ & Htype)).
    injection Htype as <-. apply final_type_not_none.
Qed.

Lemma equal_add_keeps_table_witness :
  cloog_constraint_is_valid (single_equality [1; -1] [0] 0) = true
  /\ cloog_equal_count sample_equalities
     = cloog_equal_count (cloog_equal_alloc 3 3 1)
  /\ cloog_equal_total_dimension sample_equalities
     = cloog_equal_total_dimension (cloog_equal_alloc 3 3 1)
  /\ (equal_ok (cloog_equal_alloc 3 3 1) = true
      -> equal_ok sample_equalities = true)
  /\ exists type, cloog_equal_type sample_equalities 1 = Ok type
                  /\ type ≠ EQTYPE_NONE.
Proof.
  exact (equal_add_keeps_table from_constraint extend
           (cloog_equal_alloc 3 3 1) sample_set 1
           (single_equality [1; -1] [0] 0) 1 sample_equalities eq_refl).
Defined.

(** X13.  [cloog_equal_add] at a level leaves the other levels as they
    were: their type and the set they hold. *)
Theorem equal_add_other_levels
    (isl_basic_set_from_constraint : CloogConstraint -> isl_basic_set)
    (isl_basic_set_extend :
       isl_basic_set -> Z -> Z -> Z -> Z -> Z -> option isl_basic_set)
    (equal : CloogEqualities) (matrix : CloogConstraintSet) (level : Z)
    (line : CloogConstraint) (nb_par : Z) (equal' : CloogEqualities)
    (level' : Z) :
  cloog_equal_add isl_basic_set_from_constraint isl_basic_set_extend
    equal matrix level line nb_par = Ok equal' ->
  1 <= level <= C.INT_MAX -> 1 <= level' <= C.INT_MAX -> level' ≠ level ->
  cloog_equal_type equal' level' = cloog_equal_type equal level'
  /\ load (constraints equal') (level' - 1)
     = load (constraints equal) (level' - 1).
Proof.
  intros H Hl Hl' Hne.
  apply equal_add_Ok in H as (k & type & _ & _ & Hk & _ & _ & ->).
  rewrite level_slot in Hk by done.
  unfold cloog_equal_type. rewrite (level_slot level') by done. simpl.
  split; apply load_insert_ne; lia.
Qed.

Lemma equal_add_other_levels_witness :
  cloog_equal_type sample_equalities 2
  = cloog_equal_type (cloog_equal_alloc 3 3 1) 2
  /\ load (constraints sample_equalities) (2 - 1)
     = load (constraints (cloog_equal_alloc 3 3 1)) (2 - 1).
Proof.
  apply (equal_add_other_levels from_constraint extend
           (cloog_equal_alloc 3 3 1) sample_set 1
           (single_equality [1; -1] [0] 0) 1 sample_equalities 2 eq_refl);
    unfold C.INT_MAX; lia.
Defined.

(** X14.  When [cloog_equal_del] returns, the table has the slots and the
    dimension it had, is well formed if it was, and the other levels are as
    they were: their type and the set they hold. *)
Theorem equal_del_other_levels (equal : CloogEqualities) (level : Z)
    (equal' : CloogEqualities) :
  cloog_equal_del equal level = Ok equal' ->
  1 <= level <= C.INT_MAX ->
  cloog_equal_count equal' = cloog_equal_count equal
  /\ cloog_equal_total_dimension equal' = cloog_equal_total_dimension equal
  /\ (equal_ok equal = true -> equal_ok equal' = true)
  /\ forall level',
       1 <= level' <= C.INT_MAX -> level' ≠ level ->
       cloog_equal_type equal' level' = cloog_equal_type equal level'
       /\ load (constraints equal') (level' - 1)
          = load (constraints equal) (level' - 1).
Proof.
  intros H Hl.
  apply equal_del_Ok in H as (k & Hk & _ & _ & ->).
  rewrite level_slot in Hk by done.
  split; [done|]. split; [done|]. split; [apply equal_ok_insert|].
  intros level' Hl' Hne.
  unfold cloog_equal_type. rewrite (level_slot level') by done. simpl.
  split; apply load_insert_ne; lia.
Qed.

Lemma equal_del_other_levels_witness :
  cloog_equal_count (cloog_equal_alloc 3 3 1)
  = cloog_equal_count sample_equalities
  /\ cloog_equal_total_dimension (cloog_equal_alloc 3 3 1)
     = cloog_equal_total_dimension sample_equalities
  /\ (equal_ok sample_equalities = true
      -> equal_ok (cloog_equal_alloc 3 3 1) = true)
  /\ forall level',
       1 <= level' <= C.INT_MAX -> level' ≠ 1 ->
       cloog_equal_type (cloog_equal_alloc 3 3 1) level'
       = cloog_equal_type sample_equalities level'
       /\ load (constraints (cloog_equal_alloc 3 3 1)) (level' - 1)
          = load (constraints sample_equalities) (level' - 1).
Proof.
  apply (equal_del_other_levels sample_equalities 1 (cloog_equal_alloc 3 3 1)
           eq_refl).
  unfold C.INT_MAX. lia.
Defined.

(** X15.  [cloog_equal_del] after [cloog_equal_add] at the same level
    returns the table that [cloog_equal_del] alone returns: nothing of the
    addition is left. *)
Theorem equal_add_then_del
    (isl_basic_set_from_constraint : CloogConstraint -> isl_basic_set)
    (isl_basic_set_extend :
       isl_basic_set -> Z -> Z -> Z -> Z -> Z -> option isl_basic_set)
    (equal : CloogEqualities) (matrix : CloogConstraintSet) (level : Z)
    (line : CloogConstraint) (nb_par : Z) (equal' : CloogEqualities) :
  cloog_equal_add isl_basic_set_from_constraint isl_basic_set_extend
    equal matrix level line nb_par = Ok equal' ->
  exists emptied,
    cloog_equal_del equal' level = Ok emptied
    /\ cloog_equal_del equal level = Ok emptied.
Proof.
  intros H.
  apply equal_add_Ok in H as (k & type & _ & _ & Hk & Ht & Hc & ->).
  rewrite (equal_del_slot _ _ k Hk) by (simpl; by rewrite length_insert).
  rewrite (equal_del_slot _ _ k Hk Ht Hc). simpl.
  rewrite !list_insert_insert_eq. eauto.
Qed.

Lemma equal_add_then_del_witness :
  exists emptied,
    cloog_equal_del sample_equalities 1 = Ok emptied
    /\ cloog_equal_del (cloog_equal_alloc 3 3 1) 1 = Ok emptied.
Proof.
  exact (equal_add_then_del from_constraint extend
           (cloog_equal_alloc 3 3 1) sample_set 1
           (single_equality [1; -1] [0] 0) 1 sample_equalities eq_refl).
Defined.

(** X16.  A second [cloog_equal_add] at a level replaces the first: it
    returns what it would have returned on the table as it was before the
    first. *)
Theorem equal_add_overwrites
    (isl_basic_set_from_constraint : CloogConstraint -> isl_basic_set)
    (isl_basic_set_extend :
       isl_basic_set -> Z -> Z -> Z -> Z -> Z -> option isl_basic_set)
    (equal : CloogEqualities) (matrix matrix' : CloogConstraintSet)
    (level : Z) (line line' : CloogConstraint) (nb_par nb_par' : Z)
    (equal' : CloogEqualities) :
  cloog_equal_add isl_basic_set_from_constraint isl_basic_set_extend
    equal matrix level line nb_par = Ok equal' ->
  cloog_equal_add isl_basic_set_from_constraint isl_basic_set_extend
    equal' matrix' level line' nb_par'
  = cloog_equal_add isl_basic_set_from_constraint isl_basic_set_extend
      equal matrix' level line' nb_par'.
Proof.
  intros H.
  apply equal_add_Ok in H as (k & type & _ & _ & Hk & Ht & Hc & ->).
  destruct (cloog_constraint_is_valid line') eqn:Hvalid;
    [|by unfold cloog_equal_add; rewrite Hvalid].
  destruct (cloog_constraint_equal_type line' level) as [type'|f] eqn:Htype;
    [|by unfold cloog_equal_add; rewrite Hvalid, Htype].
  rewrite (equal_add_slot _ _ _ _ _ _ _ k type' Hvalid Htype Hk)
    by (simpl; by rewrite length_insert).
  rewrite (equal_add_slot _ _ _ _ _ _ _ k type' Hvalid Htype Hk Ht Hc).
  simpl. by rewrite !list_insert_insert_eq.
Qed.

Lemma equal_add_overwrites_witness :
  cloog_equal_add from_constraint extend sample_equalities sample_set 1
    (single_equality [1; 0] [0] 13) 1
  = cloog_equal_add from_constraint extend (cloog_equal_alloc 3 3 1)
      sample_set 1 (single_equality [1; 0] [0] 13) 1.
Proof.
  exact (equal_add_overwrites from_constraint extend
           (cloog_equal_alloc 3 3 1) sample_set sample_set 1
           (single_equality [1; -1] [0] 0) (single_equality [1; 0] [0] 13)
           1 1 sample_equalities eq_refl).
Defined.

(** X17.  An addition at one level and a deletion at another can be done
    in either order: the table is the same. *)
Theorem equal_add_del_commute
    (isl_basic_set_from_constraint : CloogConstraint -> isl_basic_set)
    (isl_basic_set_extend :
       isl_basic_set -> Z -> Z -> Z -> Z -> Z -> option isl_basic_set)
    (equal : CloogEqualities) (matrix : CloogConstraintSet) (level : Z)
    (line : CloogConstraint) (nb_par : Z) (level' : Z)
    (added deleted : CloogEqualities) :
  cloog_equal_add isl_basic_set_from_constraint isl_basic_set_extend
    equal matrix level line nb_par = Ok added ->
  cloog_equal_del equal level' = Ok deleted ->
  1 <= level <= C.INT_MAX -> 1 <= level' <= C.INT_MAX -> level' ≠ level ->
  exists both,
    cloog_equal_del added level' = Ok both
    /\ cloog_equal_add isl_basic_set_from_constraint isl_basic_set_extend
         deleted matrix level line nb_par = Ok both.
Proof.
  intros Hadd Hdel Hl Hl' Hne.
  apply equal_add_Ok in Hadd
    as (k & type & Hvalid & Htype & Hk & Ht & Hc & ->).
  apply equal_del_Ok in Hdel as (k' & Hk' & Ht' & Hc' & ->).
  assert (k ≠ k') as Hkk.
  { rewrite level_slot in Hk, Hk' by done. lia. }
  rewrite (equal_del_slot _ _ k' Hk') by (simpl; by rewrite length_insert).
  rewrite (equal_add_slot _ _ _ _ _ _ _ k type Hvalid Htype Hk)
    by (simpl; by rewrite length_insert).
  simpl. eexists. split; [reflexivity|].
  unfold stored_set. simpl.
  by rewrite (list_insert_insert_ne _ k k'), (list_insert_insert_ne _ k k').
Qed.

Lemma equal_add_del_commute_witness :
  exists both,
    cloog_equal_del sample_equalities 2 = Ok both
    /\ cloog_equal_add from_constraint extend (cloog_equal_alloc 3 3 1)
         sample_set 1 (single_equality [1; -1] [0] 0) 1 = Ok both.
Proof.
  apply (equal_add_del_commute from_constraint extend
           (cloog_equal_alloc 3 3 1) sample_set 1
           (single_equality [1; -1] [0] 0) 1 2
           sample_equalities (cloog_equal_alloc 3 3 1) eq_refl eq_refl);
    unfold C.INT_MAX; lia.
Defined.

Lemma for_loop_unit (body : Z -> unit -> result (control unit)) i0 trips :
  (forall k : nat, (k < trips)%nat ->
     body (i0 + Z.of_nat k) tt = Ok (Continue tt)) ->
  for_loop body i0 trips tt = Ok tt.
Proof.
  revert i0. induction trips as [|trips IH]; intros i0 Hbody; [done|].
  simpl. pose proof (Hbody 0%nat ltac:(lia)) as H0.
  change (Z.of_nat 0) with 0 in H0. rewrite Z.add_0_r in H0.
  rewrite H0. simpl. apply IH. intros k Hk.
  replace (i0 + 1 + Z.of_nat k) with (i0 + Z.of_nat (S k)) by lia.
  apply Hbody. lia.
Qed.

(** X18.  [cloog_equal_free] returns on every well-formed table, filled or
    not: it reads the slots of the table and no other. *)
Theorem equal_free_returns (equal : CloogEqualities) :
  equal_ok equal = true -> cloog_equal_free equal = Ok tt.
Proof.
  unfold equal_ok.
  intros [[[H0 _]%andb_prop _]%andb_prop Hc]%andb_prop.
  apply Z.leb_le in H0. apply Z.eqb_eq in Hc.
  unfold cloog_equal_free. apply for_loop_unit. intros k Hk.
  rewrite Z.add_0_l.
  destruct (lookup_lt_is_Some_2 (constraints equal) k) as [s Hs]; [lia|].
  by rewrite (load_lookup _ _ _ Hs).
Qed.

Lemma equal_free_returns_witness :
  cloog_equal_free (cloog_equal_alloc 3 3 1) = Ok tt
  /\ cloog_equal_free sample_equalities = Ok tt.
Proof.
  split; apply equal_free_returns; reflexivity.
Defined.
